(** * NFSR_cycle: the example feedback functions and the cycle engine

    A shallow embedding of [example_feedback_functions.py] and of the cycle
    decomposition that [test_nfsr.py] drives, with the properties the
    specification states about them.

    Python integers are [Z]; a Python list of integers is a [list Z] that
    lives in a store of list objects and is reached through a reference, so
    that reading and writing the caller's list are visible in the model. *)

From Stdlib Require Import ZArith Lia.
From Stdlib Require Import Floats.SpecFloat Sorting.Sorted.
From stdpp Require Import gmap strings list fin_maps pretty.

Local Open Scope Z_scope.

(** ** Python values, exceptions and the store of list objects *)

Module Py.

(** The exceptions the library can raise. *)
Inductive exn : Type :=
| ValueError (msg : string)
| IndexError
| ZeroDivisionError
| OverflowError
| NameError.

Inductive result (A : Type) : Type :=
| Ok (a : A)
| Raise (e : exn).
Arguments Ok {A} a.
Arguments Raise {A} e.

(** Object identity of a list, and the store that maps it to its items. A
    name always refers to an object in Python; the primitives below answer
    [NameError] on a reference the store does not hold. *)
Definition ref := nat.
Abbreviation store := (gmap nat (list Z)).

(** A computation reads and may update the store, and returns or raises. *)
Definition M (A : Type) : Type := store → result A * store.

Definition ret {A} (a : A) : M A := λ h, (Ok a, h).
Definition raise {A} (e : exn) : M A := λ h, (Raise e, h).
Definition bind {A B} (m : M A) (k : A → M B) : M B :=
  λ h, match m h with
       | (Ok a, h') => k a h'
       | (Raise e, h') => (Raise e, h')
       end.

(** [len(l)] *)
Definition len (l : ref) : M Z :=
  λ h, match h !! l with
       | Some xs => (Ok (Z.of_nat (length xs)), h)
       | None => (Raise NameError, h)
       end.

(** [l[i]] for a literal index [i >= 0] *)
Definition getitem (l : ref) (i : nat) : M Z :=
  λ h, match h !! l with
       | Some xs => match xs !! i with
                    | Some x => (Ok x, h)
                    | None => (Raise IndexError, h)
                    end
       | None => (Raise NameError, h)
       end.

(** [sum(l)]: the items added up from 0, left to right *)
Definition sum (l : ref) : M Z :=
  λ h, match h !! l with
       | Some xs => (Ok (foldl Z.add 0 xs), h)
       | None => (Raise NameError, h)
       end.

(** [for x in xs: acc = body(acc, x)] over a list literal *)
Fixpoint for_in {A B} (xs : list A) (body : B → A → M B) (acc : B) : M B :=
  match xs with
  | [] => ret acc
  | x :: xs' => bind (body acc x) (for_in xs' body)
  end.

(** *** Floats: IEEE-754 binary64 *)

Definition prec : Z := 53.
Definition emax : Z := 1024.

(** An integer operand of a true division, as an exact binary number.
    [SFdiv] rounds the exact quotient of the two mantissas once, which is
    what Python's division of two integers returns. *)
Definition int_operand (z : Z) : spec_float :=
  match z with
  | Z0 => S754_zero false
  | Zpos p => S754_finite false p 0
  | Zneg p => S754_finite true p 0
  end.

(** [a / b] on integers: the quotient rounded to the nearest double, ties
    to even; [ZeroDivisionError] when [b] is 0, [OverflowError] when the
    rounded quotient is beyond the doubles. *)
Definition truediv (a b : Z) : M spec_float :=
  if decide (b = 0) then raise ZeroDivisionError
  else match SFdiv prec emax (int_operand a) (int_operand b) with
       | S754_infinity _ => raise OverflowError
       | q => ret q
       end.

(** [x >= y] on floats *)
Definition float_ge (x y : spec_float) : bool := SFleb y x.

(** The literal [0.7]: the double nearest to 7/10. *)
Definition float_0_7 : spec_float := S754_finite false 6305039478318694 (-53).

End Py.

Import Py.

Notation "'let*' x ':=' m 'in' k" := (bind m (λ x, k))
  (at level 10, x name, m at level 100, k at level 200).

(** ** example_feedback_functions.py *)

Definition grain_feedback (state : ref) : M Z :=
  let* n := len state in
  if decide (n < 5) then
    raise (ValueError "Grain feedback function requires at least 5 bits in the register")
  else
    let* a0 := getitem state 0 in
    let* a1 := getitem state 1 in
    let* a3 := getitem state 3 in
    let* a4 := getitem state 4 in
    let linear := Z.lxor (Z.lxor (Z.lxor a0 a1) a3) a4 in
    let* b1 := getitem state 1 in
    let* b2 := getitem state 2 in
    let* c2 := getitem state 2 in
    let* c3 := getitem state 3 in
    let* d3 := getitem state 3 in
    let* d4 := getitem state 4 in
    let nonlinear := Z.lxor (Z.lxor (Z.land b1 b2) (Z.land c2 c3)) (Z.land d3 d4) in
    ret (Z.lxor linear nonlinear mod 2).

Definition trivium_feedback (state : ref) : M Z :=
  let* n := len state in
  if decide (n < 3) then
    raise (ValueError "Trivium feedback function requires at least 3 bits in the register")
  else
    let* a0 := getitem state 0 in
    let* a2 := getitem state 2 in
    let* b1 := getitem state 1 in
    let* b2 := getitem state 2 in
    ret (Z.lxor (Z.lxor a0 a2) (Z.land b1 b2) mod 2).

Definition alternating_step_generator (state : ref) : M Z :=
  let* n := len state in
  if decide (n < 3) then
    raise (ValueError "Alternating step generator requires at least 3 bits in the register")
  else
    let* c := getitem state 0 in
    if decide (c = 1) then getitem state 1 else getitem state 2.

Definition majority_function (state : ref) : M Z :=
  let* ones_count := sum state in
  let* n := len state in
  let majority := if decide (ones_count > n `div` 2) then 1 else 0 in
  ret majority.

Definition threshold_function (state : ref) (threshold : spec_float) : M Z :=
  let* ones_count := sum state in
  let* n := len state in
  let* proportion := truediv ones_count n in
  ret (if float_ge proportion threshold then 1 else 0).

Definition threshold_with_feedback (state : ref) : M Z :=
  threshold_function state float_0_7.

Definition even_parity (state : ref) : M Z :=
  let* s := sum state in
  ret (s mod 2).

(** The tap table of [galois_lfsr], one entry per supported register length. *)
Definition taps : gmap Z (list nat) :=
  list_to_map
    [ (2, [0; 1]%nat); (3, [0; 1]%nat); (4, [0; 1]%nat); (5, [0; 2]%nat); (6, [0; 1]%nat);
      (7, [0; 1]%nat); (8, [0; 2; 3; 4]%nat); (9, [0; 4]%nat); (10, [0; 3]%nat); (11, [0; 2]%nat);
      (15, [0; 1]%nat); (16, [0; 1; 3; 12]%nat); (17, [0; 3]%nat); (18, [0; 7]%nat);
      (19, [0; 1; 4; 18]%nat); (20, [0; 3]%nat); (21, [0; 2]%nat); (22, [0; 1]%nat);
      (23, [0; 5]%nat); (24, [0; 1; 3; 4]%nat); (25, [0; 3]%nat); (28, [0; 3]%nat);
      (29, [0; 2]%nat); (30, [0; 1; 4; 6]%nat); (31, [0; 3]%nat); (32, [0; 1; 2; 22]%nat)
    ].

Definition galois_lfsr (state : ref) : M Z :=
  let* length := len state in
  match taps !! length with
  | None =>
      raise (ValueError ("No tap positions defined for register length " +:+ pretty length))
  | Some ts =>
      for_in ts (λ result tap, let* x := getitem state tap in ret (Z.lxor result x)) 0
  end.

(** Dictionary of all available functions *)
Definition functions : gmap string (ref → M Z) :=
  list_to_map
    [ ("Grain Stream Cipher", grain_feedback);
      ("Trivium Stream Cipher", trivium_feedback);
      ("Alternating Step Generator", alternating_step_generator);
      ("Majority Function", majority_function);
      ("Threshold (70%)", threshold_with_feedback);
      ("Even Parity", even_parity);
      ("Galois LFSR", galois_lfsr) ]%string.

(** Calling [f] on a list object that holds [state]: the value returned or
    the exception raised, and the store after the call. *)
Definition call {A} (f : ref → M A) (h : store) (l : ref) : result A := (f l h).1.
Definition store_after {A} (f : ref → M A) (h : store) (l : ref) : store := (f l h).2.

(** A state of 0/1 bits. *)
Definition is_bit (b : Z) : Prop := b = 0 ∨ b = 1.
Definition bits (state : list Z) : Prop := Forall is_bit state.

(** ** Statelessness

    Two computations, one over the list object [l1] and one over [l2], are
    [stateless] when on stores that give both objects the same items they
    return the same value or raise the same exception, and each leaves its
    store as it found it. *)

Definition stateless {A} (l1 l2 : ref) (m1 m2 : M A) : Prop :=
  ∀ h1 h2 : store, h1 !! l1 = h2 !! l2 →
    m1 h1 = ((m1 h1).1, h1) ∧ m2 h2 = ((m1 h1).1, h2).

(** ** Vocabulary of the specification *)

(** The number of ones of a state. *)
Definition ones (state : list Z) : Z := Z.of_nat (count_occ Z.eq_dec state 1).

(** The XOR of a sequence of bits. *)
Definition xor_all (bs : list Z) : Z := foldr Z.lxor 0 bs.

(** The register lengths [galois_lfsr] supports: 2..11, 15..25 and 28..32. *)
Definition supported (n : Z) : Prop := 2 ≤ n ≤ 11 ∨ 15 ≤ n ≤ 25 ∨ 28 ≤ n ≤ 32.

(** The length each entry of [functions] asks of its state. *)
Definition length_precondition (name : string) (n : Z) : Prop :=
  if decide (name = "Grain Stream Cipher"%string) then 5 ≤ n
  else if decide (name = "Trivium Stream Cipher"%string) then 3 ≤ n
  else if decide (name = "Alternating Step Generator"%string) then 3 ≤ n
  else if decide (name = "Galois LFSR"%string) then is_Some (taps !! n)
  else 1 ≤ n.

(** ** The cycle decomposition engine that [test_nfsr.py] drives

    [run_test] builds an [NFSRCycleCalculator] and calls [find_all_cycles].
    The module [nfsr_cycle_calculator] that defines them is not in the
    repository files read here, so the register model and the engine below
    follow the specification (sections 3, 4.1, 4.2 and 5). States are handled
    by their integer value in [0, 2^n). *)

Module Engine.

(** Modelled from the spec: the error taxonomy of the core (the module
    [nfsr_cycle_calculator] is missing). *)
Inductive error : Type :=
| InvalidStateLength
| FeedbackFunctionError
| UnsupportedRegisterLength
| InternalConsistencyError.

(** Modelled from the spec: an operation of the core returns its result or
    fails with one of these errors, and returns nothing then (section 7; the
    calculator's own error handling is missing). *)
Inductive attempt (A : Type) : Type :=
| Success (a : A)
| Failure (e : error).
Arguments Success {A} a.
Arguments Failure {A} e.

(** Modelled from the spec: a State is an ordered sequence of [n] bits,
    index 0 the oldest; equivalently the unsigned integer it spells, oldest
    bit first (the calculator's own representation is missing). *)
Definition State : Type := list Z.

(** Modelled from the spec: the integer a State spells, and the State of
    [n] bits that spells an integer (section 3; missing with the
    calculator). *)
Definition state_to_int (state : State) : nat :=
  foldl (λ acc b, 2 * acc + Z.to_nat b)%nat 0%nat state.

(** Modelled from the spec: see [state_to_int]. *)
Fixpoint int_to_state (n : nat) (v : nat) : State :=
  match n with
  | O => []
  | S n' => int_to_state n' (v / 2) ++ [Z.of_nat (v mod 2)]
  end.

(** Modelled from the spec: a FeedbackFunction maps a State to one bit, or
    fails. A function of the example library is used on a list object that
    holds the state. *)
Definition FeedbackFunction : Type := State → Py.result Z.

(** Modelled from the spec: how [run_test] hands a function of the example
    library to the calculator (the calculator's call is missing): the
    function is called on a list object that holds the state. *)
Definition as_feedback (f : ref → M Z) : FeedbackFunction :=
  λ state, call f {[ 0%nat := state ]} 0%nat.

(** Modelled from the spec: the RegisterTransitionModel of section 4.1
    (missing with the calculator): check the length, compute the feedback
    bit, drop the oldest bit and append the new one. *)
Definition step (n : nat) (feedback : FeedbackFunction) (state : State)
  : attempt State :=
  if decide (length state = n) then
    match feedback state with
    | Py.Ok b =>
        if decide (b = 0 ∨ b = 1) then Success (drop 1 state ++ [b])
        else Failure FeedbackFunctionError
    | Py.Raise _ => Failure FeedbackFunctionError
    end
  else Failure InvalidStateLength.

(** Modelled from the spec: the transition on the integer values of the
    states (section 3; missing with the calculator). *)
Definition step_int (n : nat) (feedback : FeedbackFunction) (v : nat)
  : attempt nat :=
  match step n feedback (int_to_state n v) with
  | Success state' => Success (state_to_int state')
  | Failure e => Failure e
  end.

(** Modelled from the spec: what a Done state is Done as, a member of a
    cycle or a transient state attributed to one (section 4.2, step 3;
    missing with the calculator). *)
Inductive membership : Type :=
| CycleMember (cycle_id : nat)
| Transient (cycle_id : nat).

(** Modelled from the spec: the classification of section 4.2, step 1
    (missing with the calculator). *)
Inductive classification : Type :=
| Unvisited
| InProgress (position : nat)
| Done (m : membership).

(** Modelled from the spec: the cycle a Done state belongs or leads to. *)
Definition cycle_of (m : membership) : nat :=
  match m with
  | CycleMember id => id
  | Transient id => id
  end.

(** Modelled from the spec: the classification kept for every state; a
    state without an entry is Unvisited. *)
Definition classify (cls : gmap nat classification) (s : nat) : classification :=
  default Unvisited (cls !! s).

(** Modelled from the spec: step 3, marking states Done. *)
Definition mark (m : membership) (states : list nat)
    (cls : gmap nat classification) : gmap nat classification :=
  foldl (λ c s, <[s := Done m]> c) cls states.

(** Modelled from the spec: how a walk ends (section 4.2, steps 2a and 2b;
    missing with the calculator): on a state seen earlier in the same walk,
    a new cycle fed by the states walked before it, or on a state classified
    before. *)
Inductive walk_end : Type :=
| NewCycle (feeders cycle : list nat)
| JoinsKnown (path : list nat) (cycle_id : nat).

(** Modelled from the spec: the canonical order of a cycle starts at its
    lowest-valued member. *)
Definition canonicalize (cycle : list nat) : list nat :=
  let lowest := foldr Nat.min (hd 0%nat cycle) cycle in
  match list_find (λ s, s = lowest) cycle with
  | Some (i, _) => drop i cycle ++ take i cycle
  | None => cycle
  end.

(** Modelled from the spec: a CycleDecomposition is the cycles found, in the
    order found, and the total count of transient states. *)
Record CycleDecomposition : Type := {
  cycles : list (list nat);
  transient_count : nat
}.

(** Modelled from the spec: what the engine holds between two walks. *)
Record engine_state : Type := {
  cls : gmap nat classification;
  found : list (list nat);
  transients : nat
}.

Section Decomposition.
Variable size : nat.
Variable next : nat → attempt nat.

(** Modelled from the spec: one walk of section 4.2, step 2. [path] holds
    the states of this walk in order, each InProgress at its position. *)
Fixpoint walk (fuel : nat) (cls : gmap nat classification) (path : list nat)
    (cur : nat) : attempt (gmap nat classification * walk_end) :=
  match fuel with
  | O => Failure InternalConsistencyError
  | S fuel' =>
      match classify cls cur with
      | Done m => Success (cls, JoinsKnown path (cycle_of m))
      | InProgress i => Success (cls, NewCycle (take i path) (drop i path))
      | Unvisited =>
          match next cur with
          | Failure e => Failure e
          | Success nxt =>
              walk fuel' (<[cur := InProgress (length path)]> cls)
                (path ++ [cur]) nxt
          end
      end
  end.

(** Modelled from the spec: steps 2 and 3 for one starting state. *)
Definition visit (st : engine_state) (start : nat) : attempt engine_state :=
  match classify (cls st) start with
  | Done _ => Success st
  | _ =>
      match walk (S size) (cls st) [] start with
      | Failure e => Failure e
      | Success (cls', NewCycle feeders cycle) =>
          let id := length (found st) in
          Success {| cls := mark (Transient id) feeders
                              (mark (CycleMember id) cycle cls');
                     found := found st ++ [canonicalize cycle];
                     transients := transients st + length feeders |}
      | Success (cls', JoinsKnown path id) =>
          Success {| cls := mark (Transient id) path cls';
                     found := found st;
                     transients := transients st + length path |}
      end
  end.

(** Modelled from the spec: the starting states in turn; the first failure
    aborts the decomposition. *)
Fixpoint visit_all (starts : list nat) (st : engine_state)
  : attempt engine_state :=
  match starts with
  | [] => Success st
  | s :: rest =>
      match visit st s with
      | Success st' => visit_all rest st'
      | Failure e => Failure e
      end
  end.

(** Modelled from the spec: step 4, every state in ascending order. *)
Definition decompose_space : attempt CycleDecomposition :=
  match visit_all (seq 0 size) {| cls := ∅; found := []; transients := 0 |} with
  | Success st =>
      Success {| cycles := found st; transient_count := transients st |}
  | Failure e => Failure e
  end.

End Decomposition.

(** Modelled from the spec: [decompose(n, feedback)], which is what
    [find_all_cycles] computes, with the ceiling on the register length of
    section 5. *)
Definition decompose (ceiling n : nat) (feedback : FeedbackFunction)
  : attempt CycleDecomposition :=
  if decide (ceiling < n)%nat then Failure UnsupportedRegisterLength
  else decompose_space (2 ^ n) (step_int n feedback).




(** *** Invariants of the engine *)




End Engine.

(** ** Rounding vocabulary *)

(** One shift to the right halves the mantissa and keeps track of what is
    lost: the bit shifted out and whether anything was lost before. *)
Definition halved_location (q : Z) (loc : location) : location :=
  match Z.odd q, loc with
  | false, loc_Exact => loc_Exact
  | false, loc_Inexact _ => loc_Inexact Lt
  | true, loc_Exact => loc_Inexact Eq
  | true, loc_Inexact _ => loc_Inexact Gt
  end.

(** * Properties *)

(** ** Sample runs *)

Example float_0_7_is_7_over_10 :
  SFdiv prec emax (int_operand 7) (int_operand 10) = float_0_7.
Proof. vm_compute. reflexivity. Qed.

Example grain_11010 : call grain_feedback {[ 7%nat := [1;1;0;1;0] ]} 7%nat = Ok 1.
Proof. vm_compute. reflexivity. Qed.

Example galois_len3 : call galois_lfsr {[ 7%nat := [1;0;1] ]} 7%nat = Ok 1.
Proof. vm_compute. reflexivity. Qed.

Example threshold_7_of_10 :
  call threshold_with_feedback {[ 0%nat := [1;1;1;1;1;1;1;0;0;0] ]} 0%nat = Ok 1.
Proof. vm_compute. reflexivity. Qed.

Example threshold_2_of_3 :
  call threshold_with_feedback {[ 0%nat := [1;1;0] ]} 0%nat = Ok 0.
Proof. vm_compute. reflexivity. Qed.

Example threshold_empty :
  call threshold_with_feedback {[ 0%nat := [] ]} 0%nat = Raise ZeroDivisionError.
Proof. vm_compute. reflexivity. Qed.

(** Test 3 of [test_nfsr.py]: the Grain function on a 5-bit register. *)
Example decompose_grain_5 :
  Engine.decompose 26 5 (Engine.as_feedback grain_feedback)
  = Engine.Success
      {| Engine.cycles :=
           [ [0]; [1; 3; 7; 14; 28; 25; 19; 6; 12; 24; 16];
             [2; 5; 11; 22; 13; 27; 23; 15; 30; 29; 26; 21; 10; 20; 9; 18; 4; 8; 17];
             [31] ]%nat;
         Engine.transient_count := 0 |}.
Proof. vm_compute. reflexivity. Qed.

(** A 4-bit register fed back with [x[0] ^ x[3]]: the all-zero state is a
    fixed point and the fifteen other states form one cycle. *)
Example decompose_x0_xor_x3 :
  Engine.decompose 26 4
    (λ state, match state with
              | [x0; _; _; x3] => Ok (Z.lxor x0 x3)
              | _ => Raise IndexError
              end)
  = Engine.Success
      {| Engine.cycles :=
           [ [0]; [1; 3; 7; 15; 14; 13; 10; 5; 11; 6; 12; 9; 2; 4; 8] ]%nat;
         Engine.transient_count := 0 |}.
Proof. vm_compute. reflexivity. Qed.

(** Above the ceiling nothing is enumerated. *)
Example decompose_above_ceiling :
  Engine.decompose 26 40 (Engine.as_feedback even_parity)
  = Engine.Failure Engine.UnsupportedRegisterLength.
Proof. reflexivity. Qed.

(** The majority function on a 4-bit register: two fixed points, and every
    other state is transient. *)
Example decompose_majority_4 :
  Engine.decompose 26 4 (Engine.as_feedback majority_function)
  = Engine.Success
      {| Engine.cycles := [ [0]; [15] ]%nat; Engine.transient_count := 14 |}.
Proof. vm_compute. reflexivity. Qed.

Example galois_len12 :
  ∃ msg, call galois_lfsr {[ 0%nat := replicate 12 0 ]} 0%nat = Raise (ValueError msg).
Proof. eexists. vm_compute. reflexivity. Qed.

(** ** The primitives on a store that holds the list *)

Section Primitives.
Context (h : store) (l : ref) (xs : list Z).
Hypothesis Hl : h !! l = Some xs.

Lemma len_run : len l h = (Ok (Z.of_nat (length xs)), h).
Proof using Hl. unfold len. by rewrite Hl. Qed.

Lemma sum_run : sum l h = (Ok (foldl Z.add 0 xs), h).
Proof using Hl. unfold sum. by rewrite Hl. Qed.

Lemma getitem_run i x : xs !! i = Some x → getitem l i h = (Ok x, h).
Proof using Hl. intros Hi. unfold getitem. by rewrite Hl, Hi. Qed.

Lemma getitem_out_of_range i :
  xs !! i = None → getitem l i h = (Raise IndexError, h).
Proof using Hl. intros Hi. unfold getitem. by rewrite Hl, Hi. Qed.
End Primitives.

Lemma bind_run {A B} (m : M A) (k : A → M B) h a h' :
  m h = (Ok a, h') → bind m k h = k a h'.
Proof. intros E. unfold bind. by rewrite E. Qed.

Lemma bind_raise {A B} (m : M A) (k : A → M B) h e h' :
  m h = (Raise e, h') → bind m k h = (Raise e, h').
Proof. intros E. unfold bind. by rewrite E. Qed.

(** ** Statelessness of the primitives and of the library *)

Section Stateless.
Context (l1 l2 : ref).

Lemma stateless_ret {A} (a : A) : stateless l1 l2 (ret a) (ret a).
Proof. by intros h1 h2 _. Qed.

Lemma stateless_raise {A} e : stateless l1 l2 (@raise A e) (raise e).
Proof. by intros h1 h2 _. Qed.

Lemma stateless_len : stateless l1 l2 (len l1) (len l2).
Proof. intros h1 h2 E. unfold len. rewrite <- E. by destruct (h1 !! l1). Qed.

Lemma stateless_sum : stateless l1 l2 (sum l1) (sum l2).
Proof. intros h1 h2 E. unfold sum. rewrite <- E. by destruct (h1 !! l1). Qed.

Lemma stateless_getitem i : stateless l1 l2 (getitem l1 i) (getitem l2 i).
Proof.
  intros h1 h2 E. unfold getitem. rewrite <- E.
  destruct (h1 !! l1) as [xs|]; [|done]. by destruct (xs !! i).
Qed.

Lemma stateless_truediv a b : stateless l1 l2 (truediv a b) (truediv a b).
Proof.
  intros h1 h2 _. unfold truediv. case_decide; [done|].
  by destruct (SFdiv _ _ _ _).
Qed.

Lemma stateless_bind {A B} (m1 m2 : M A) (k1 k2 : A → M B) :
  stateless l1 l2 m1 m2 →
  (∀ a, stateless l1 l2 (k1 a) (k2 a)) →
  stateless l1 l2 (bind m1 k1) (bind m2 k2).
Proof.
  intros Hm Hk h1 h2 E. destruct (Hm h1 h2 E) as [E1 E2].
  unfold bind. rewrite E2, E1. simpl.
  destruct (m1 h1).1 as [a|e]; [|done]. by apply Hk.
Qed.

Lemma stateless_for_in {A B} (xs : list A) (b1 b2 : B → A → M B) acc :
  (∀ acc x, stateless l1 l2 (b1 acc x) (b2 acc x)) →
  stateless l1 l2 (for_in xs b1 acc) (for_in xs b2 acc).
Proof.
  intros Hb. revert acc. induction xs as [|x xs IH]; intros acc; simpl.
  - apply stateless_ret.
  - apply stateless_bind; [apply Hb | apply IH].
Qed.

Lemma stateless_if {A} (P : Prop) `{Decision P} (m1 m2 n1 n2 : M A) :
  stateless l1 l2 m1 m2 → stateless l1 l2 n1 n2 →
  stateless l1 l2 (if decide P then m1 else n1) (if decide P then m2 else n2).
Proof. intros. by case_decide. Qed.
End Stateless.

Create HintDb stateless discriminated.
#[local] Hint Resolve stateless_ret stateless_raise stateless_len stateless_sum
  stateless_getitem stateless_truediv stateless_if : stateless.

Ltac stateless_steps :=
  repeat first
    [ apply stateless_bind; [ solve [eauto with stateless] | intros ? ]
    | apply stateless_if
    | solve [eauto with stateless] ].

Lemma stateless_grain l1 l2 : stateless l1 l2 (grain_feedback l1) (grain_feedback l2).
Proof. unfold grain_feedback. stateless_steps. Qed.

Lemma stateless_trivium l1 l2 :
  stateless l1 l2 (trivium_feedback l1) (trivium_feedback l2).
Proof. unfold trivium_feedback. stateless_steps. Qed.

Lemma stateless_alternating l1 l2 :
  stateless l1 l2 (alternating_step_generator l1) (alternating_step_generator l2).
Proof. unfold alternating_step_generator. stateless_steps. Qed.

Lemma stateless_majority l1 l2 :
  stateless l1 l2 (majority_function l1) (majority_function l2).
Proof. unfold majority_function. stateless_steps. Qed.

Lemma stateless_threshold l1 l2 :
  stateless l1 l2 (threshold_with_feedback l1) (threshold_with_feedback l2).
Proof. unfold threshold_with_feedback, threshold_function. stateless_steps. Qed.

Lemma stateless_parity l1 l2 : stateless l1 l2 (even_parity l1) (even_parity l2).
Proof. unfold even_parity. stateless_steps. Qed.

Lemma stateless_galois l1 l2 : stateless l1 l2 (galois_lfsr l1) (galois_lfsr l2).
Proof.
  unfold galois_lfsr. apply stateless_bind; [apply stateless_len|].
  intros n. destruct (taps !! n) as [ts|]; [|apply stateless_raise].
  apply stateless_for_in. intros acc x. stateless_steps.
Qed.

(** The entries of the [functions] dictionary. *)
Lemma functions_entries name f :
  functions !! name = Some f →
  (name = "Grain Stream Cipher"%string ∧ f = grain_feedback) ∨
  (name = "Trivium Stream Cipher"%string ∧ f = trivium_feedback) ∨
  (name = "Alternating Step Generator"%string ∧ f = alternating_step_generator) ∨
  (name = "Majority Function"%string ∧ f = majority_function) ∨
  (name = "Threshold (70%)"%string ∧ f = threshold_with_feedback) ∨
  (name = "Even Parity"%string ∧ f = even_parity) ∨
  (name = "Galois LFSR"%string ∧ f = galois_lfsr).
Proof.
  intros Hf. apply elem_of_list_to_map_2 in Hf.
  repeat (apply elem_of_cons in Hf as [Hf|Hf]; [injection Hf as -> ->; tauto|]).
  by apply elem_of_nil in Hf.
Qed.

Lemma functions_stateless name f l1 l2 :
  functions !! name = Some f → stateless l1 l2 (f l1) (f l2).
Proof.
  intros Hf. apply functions_entries in Hf.
  destruct Hf as [[_ ->]|[[_ ->]|[[_ ->]|[[_ ->]|[[_ ->]|[[_ ->]|[_ ->]]]]]]];
    auto using stateless_grain, stateless_trivium, stateless_alternating,
      stateless_majority, stateless_threshold, stateless_parity, stateless_galois.
Qed.

(** ** Determinism and purity of the library *)

(** C3. Every function of the [functions] dictionary is deterministic: two
    calls on list objects that hold equal states, in whatever stores, return
    the same bit (or raise the same exception); the result is a function of
    the items of the input state alone. *)
Theorem functions_deterministic name f (h1 h2 : store) (l1 l2 : ref)
    (state1 state2 : list Z) :
  functions !! name = Some f →
  h1 !! l1 = Some state1 → h2 !! l2 = Some state2 → state1 = state2 →
  call f h1 l1 = call f h2 l2.
Proof.
  intros Hf H1 H2 ->. unfold call.
  destruct (functions_stateless name f l1 l2 Hf h1 h2) as [_ E2]; [congruence|].
  by rewrite E2.
Qed.

Lemma functions_deterministic_witness :
  call even_parity {[ 0%nat := [1; 0; 1] ]} 0%nat
  = call even_parity (<[ 3%nat := [1; 0; 1] ]> {[ 0%nat := [0; 0; 0] ]}) 3%nat.
Proof.
  apply (functions_deterministic "Even Parity" even_parity _ _ _ _ [1; 0; 1] [1; 0; 1]);
    reflexivity.
Defined.

(** No call changes the store: every function only reads. *)
Lemma functions_read_only name f (h : store) (l : ref) :
  functions !! name = Some f → store_after f h l = h.
Proof.
  intros Hf. unfold store_after.
  destruct (functions_stateless name f l l Hf h h eq_refl) as [E _].
  by rewrite E.
Qed.

(** C6. No function of the [functions] dictionary mutates the list passed to
    it: after the call, whether it returned a bit or raised, the input list
    holds the items it held before, in the same order. *)
Theorem functions_leave_input_unchanged name f (h : store) (l : ref)
    (state : list Z) :
  functions !! name = Some f → h !! l = Some state →
  store_after f h l !! l = Some state.
Proof. intros Hf Hl. by rewrite (functions_read_only name f h l Hf). Qed.

Lemma functions_leave_input_unchanged_witness :
  store_after galois_lfsr {[ 2%nat := [1; 0; 1; 1] ]} 2%nat !! 2%nat
  = Some [1; 0; 1; 1].
Proof.
  apply (functions_leave_input_unchanged "Galois LFSR" galois_lfsr); reflexivity.
Defined.

(** ** Bit arithmetic *)

Lemma is_bit_mod2 z : is_bit (z mod 2).
Proof. unfold is_bit. pose proof (Z.mod_pos_bound z 2). lia. Qed.

Lemma is_bit_lxor a b : is_bit a → is_bit b → is_bit (Z.lxor a b).
Proof. by intros [-> | ->] [-> | ->]; vm_compute; auto. Qed.

Lemma is_bit_land a b : is_bit a → is_bit b → is_bit (Z.land a b).
Proof. by intros [-> | ->] [-> | ->]; vm_compute; auto. Qed.

Lemma bits_lookup state i x : bits state → state !! i = Some x → is_bit x.
Proof. intros Hb Hi. by apply (Forall_lookup_1 _ _ _ _ Hb Hi). Qed.

Lemma foldl_add_shift a xs : foldl Z.add a xs = a + foldl Z.add 0 xs.
Proof.
  revert a. induction xs as [|x xs IH]; intros a; simpl; [lia|].
  rewrite (IH (a + x)), (IH (0 + x)). lia.
Qed.

Lemma ones_nil : ones [] = 0.
Proof. reflexivity. Qed.

Lemma ones_cons b state :
  ones (b :: state) = (if decide (b = 1) then 1 else 0) + ones state.
Proof.
  unfold ones. simpl. destruct (Z.eq_dec b 1); case_decide; try congruence; lia.
Qed.

Lemma ones_bounds state : 0 ≤ ones state ≤ Z.of_nat (length state).
Proof.
  induction state as [|b state IH]; [by rewrite ones_nil|].
  rewrite ones_cons. simpl length. case_decide; lia.
Qed.

(** On a state of bits, [sum] counts the ones. *)
Lemma sum_bits state : bits state → foldl Z.add 0 state = ones state.
Proof.
  induction 1 as [|b state Hb _ IH]; [done|].
  simpl. rewrite foldl_add_shift, IH, ones_cons.
  destruct Hb as [-> | ->]; case_decide; lia.
Qed.

Ltac solve_bits :=
  unfold bits; repeat (constructor; [unfold is_bit; lia|]); constructor.

Ltac run_on Hl :=
  unfold call, store_after;
  repeat first
    [ rewrite (bind_run _ _ _ _ _ (len_run _ _ _ Hl))
    | rewrite (bind_run _ _ _ _ _ (sum_run _ _ _ Hl))
    | erewrite bind_run by (eapply getitem_run; [exact Hl | reflexivity]) ];
  cbv beta.

(** ** grain_feedback *)

Lemma grain_feedback_short (h : store) l state :
  h !! l = Some state → (length state < 5)%nat →
  call grain_feedback h l
  = Raise (ValueError "Grain feedback function requires at least 5 bits in the register").
Proof.
  intros Hl Hn. unfold grain_feedback. run_on Hl. case_decide; [done|lia].
Qed.

Lemma grain_feedback_value (h : store) l x0 x1 x2 x3 x4 rest :
  h !! l = Some (x0 :: x1 :: x2 :: x3 :: x4 :: rest) →
  call grain_feedback h l
  = Ok (Z.lxor (Z.lxor (Z.lxor (Z.lxor x0 x1) x3) x4)
          (Z.lxor (Z.lxor (Z.land x1 x2) (Z.land x2 x3)) (Z.land x3 x4)) mod 2).
Proof.
  intros Hl. unfold grain_feedback. run_on Hl.
  case_decide; [simpl in *; lia|]. by run_on Hl.
Qed.

(** C5. [grain_feedback] raises exactly when the state has fewer than five
    bits, and what it raises is a ValueError; on a state of at least five
    bits it returns
    (x0 ^ x1 ^ x3 ^ x4 ^ (x1 & x2) ^ (x2 & x3) ^ (x3 & x4)) mod 2,
    which is 0 or 1. *)
Theorem grain_feedback_spec (h : store) (l : ref) (state : list Z) :
  h !! l = Some state →
  ((∃ e, call grain_feedback h l = Raise e) ↔ (length state < 5)%nat) ∧
  (∀ e, call grain_feedback h l = Raise e → ∃ msg, e = ValueError msg) ∧
  (bits state → (5 ≤ length state)%nat →
   ∃ x0 x1 x2 x3 x4 b,
     state !! 0%nat = Some x0 ∧ state !! 1%nat = Some x1 ∧
     state !! 2%nat = Some x2 ∧ state !! 3%nat = Some x3 ∧
     state !! 4%nat = Some x4 ∧
     call grain_feedback h l = Ok b ∧
     b = Z.lxor (Z.lxor (Z.lxor (Z.lxor (Z.lxor (Z.lxor x0 x1) x3) x4)
                    (Z.land x1 x2)) (Z.land x2 x3)) (Z.land x3 x4) mod 2 ∧
     is_bit b).
Proof.
  intros Hl.
  destruct (decide (length state < 5)%nat) as [Hn|Hn].
  - rewrite (grain_feedback_short h l state Hl Hn).
    split; [|split].
    + split; [done|eauto].
    + intros e [= <-]. eauto.
    + intros _ ?. lia.
  - destruct state as [|x0 [|x1 [|x2 [|x3 [|x4 rest]]]]]; simpl in Hn; try lia.
    rewrite (grain_feedback_value h l _ _ _ _ _ _ Hl).
    split; [|split].
    + split; [by intros [e ?]|intros ?; simpl in *; lia].
    + by intros e ?.
    + intros _ _. exists x0, x1, x2, x3, x4. eexists.
      repeat (split; [reflexivity|]). split; [|apply is_bit_mod2].
      f_equal. rewrite !Z.lxor_assoc. reflexivity.
Qed.

Lemma grain_feedback_spec_witness :
  ∃ b, call grain_feedback {[ 0%nat := [1; 1; 0; 1; 0; 1] ]} 0%nat = Ok b ∧ is_bit b.
Proof.
  destruct (grain_feedback_spec {[ 0%nat := [1; 1; 0; 1; 0; 1] ]} 0%nat
              [1; 1; 0; 1; 0; 1]) as (_ & _ & H); [reflexivity|].
  destruct H as (x0 & x1 & x2 & x3 & x4 & b & _ & _ & _ & _ & _ & Hb & _ & Hbit).
  - solve_bits.
  - simpl. lia.
  - exists b. split; assumption.
Defined.

(** C8. [grain_feedback] depends only on the first five bits: on two states
    of at least five bits that agree at indices 0 to 4 it returns the same
    bit. *)
Theorem grain_feedback_first_five (h1 h2 : store) (l1 l2 : ref)
    (state1 state2 : list Z) :
  h1 !! l1 = Some state1 → h2 !! l2 = Some state2 →
  bits state1 → bits state2 →
  (5 ≤ length state1)%nat → (5 ≤ length state2)%nat →
  (∀ i, (i < 5)%nat → state1 !! i = state2 !! i) →
  call grain_feedback h1 l1 = call grain_feedback h2 l2.
Proof.
  intros H1 H2 _ _ Hn1 Hn2 Hagree.
  destruct state1 as [|x0 [|x1 [|x2 [|x3 [|x4 r1]]]]]; simpl in Hn1; try lia.
  destruct state2 as [|y0 [|y1 [|y2 [|y3 [|y4 r2]]]]]; simpl in Hn2; try lia.
  rewrite (grain_feedback_value h1 l1 _ _ _ _ _ _ H1).
  rewrite (grain_feedback_value h2 l2 _ _ _ _ _ _ H2).
  pose proof (Hagree 0%nat ltac:(lia)) as E0.
  pose proof (Hagree 1%nat ltac:(lia)) as E1.
  pose proof (Hagree 2%nat ltac:(lia)) as E2.
  pose proof (Hagree 3%nat ltac:(lia)) as E3.
  pose proof (Hagree 4%nat ltac:(lia)) as E4.
  simpl in *. congruence.
Qed.

Lemma grain_feedback_first_five_witness :
  call grain_feedback {[ 0%nat := [1; 0; 1; 1; 0; 0; 0] ]} 0%nat
  = call grain_feedback {[ 1%nat := [1; 0; 1; 1; 0; 1] ]} 1%nat.
Proof.
  apply (grain_feedback_first_five _ _ _ _ [1; 0; 1; 1; 0; 0; 0] [1; 0; 1; 1; 0; 1]);
    try reflexivity; try solve_bits; try (simpl; lia).
  intros i Hi.
  destruct i as [|[|[|[|[|i]]]]]; try reflexivity; lia.
Defined.

(** ** majority_function and even_parity *)

Lemma majority_function_run (h : store) l state :
  h !! l = Some state → bits state →
  call majority_function h l
  = Ok (if decide (ones state > Z.of_nat (length state) `div` 2) then 1 else 0).
Proof.
  intros Hl Hb. unfold majority_function. run_on Hl.
  by rewrite (sum_bits state Hb).
Qed.

Lemma even_parity_run (h : store) l state :
  h !! l = Some state →
  call even_parity h l = Ok (foldl Z.add 0 state `mod` 2).
Proof. intros Hl. unfold even_parity. by run_on Hl. Qed.

(** C9. [majority_function] returns on every state of bits, the empty one
    included, and returns 1 exactly when the number of ones is greater than
    the length halved (rounded down); so it returns 0 on the empty state and
    on a tie. *)
Theorem majority_function_spec (h : store) (l : ref) (state : list Z) :
  h !! l = Some state → bits state →
  ∃ b, call majority_function h l = Ok b ∧ is_bit b ∧
       (b = 1 ↔ ones state > Z.of_nat (length state) `div` 2) ∧
       (state = [] → b = 0) ∧
       (2 * ones state = Z.of_nat (length state) → b = 0).
Proof.
  intros Hl Hb. rewrite (majority_function_run h l state Hl Hb). unfold is_bit.
  eexists. split; [reflexivity|].
  case_decide as Hgt.
  - repeat split; auto; intros E.
    + subst state. by vm_compute in Hgt.
    + rewrite <- E in Hgt. rewrite (Z.mul_comm 2), Z.div_mul in Hgt; lia.
  - repeat split; auto; intros E; lia.
Qed.

Lemma majority_function_spec_witness :
  ∃ b, call majority_function {[ 0%nat := [1; 0; 1; 0] ]} 0%nat = Ok b ∧ b = 0.
Proof.
  destruct (majority_function_spec {[ 0%nat := [1; 0; 1; 0] ]} 0%nat [1; 0; 1; 0])
    as (b & Hcall & _ & _ & _ & Htie); [reflexivity|solve_bits|].
  exists b. split; [exact Hcall|]. apply Htie. reflexivity.
Defined.

(** C10. [even_parity] returns on every state of bits, the empty one
    included; it returns [sum(state) mod 2], which is 1 when the number of
    ones is odd and 0 otherwise, and 0 on the empty state. *)
Theorem even_parity_spec (h : store) (l : ref) (state : list Z) :
  h !! l = Some state → bits state →
  call even_parity h l = Ok (foldl Z.add 0 state `mod` 2) ∧
  call even_parity h l = Ok (if Z.odd (ones state) then 1 else 0) ∧
  (state = [] → call even_parity h l = Ok 0).
Proof.
  intros Hl Hb. rewrite (even_parity_run h l state Hl).
  split; [reflexivity|]. split.
  - rewrite (sum_bits state Hb), Zmod_odd. reflexivity.
  - intros ->. reflexivity.
Qed.

Lemma even_parity_spec_witness :
  call even_parity {[ 0%nat := [1; 1; 1; 0] ]} 0%nat = Ok 1.
Proof.
  destruct (even_parity_spec {[ 0%nat := [1; 1; 1; 0] ]} 0%nat [1; 1; 1; 0])
    as (_ & H & _); [reflexivity|solve_bits|].
  exact H.
Defined.

(** ** galois_lfsr *)

Lemma taps_supported n : supported n → is_Some (taps !! n).
Proof.
  intros Hn.
  assert (n ∈ [2; 3; 4; 5; 6; 7; 8; 9; 10; 11; 15; 16; 17; 18; 19; 20; 21; 22;
               23; 24; 25; 28; 29; 30; 31; 32]) as Hin.
  { unfold supported in Hn. rewrite !elem_of_cons. lia. }
  repeat (apply elem_of_cons in Hin as [->|Hin]; [by eexists|]).
  by apply elem_of_nil in Hin.
Qed.

Lemma taps_in_table n ts :
  taps !! n = Some ts → supported n ∧ Forall (λ t, Z.of_nat t < n) ts.
Proof.
  intros Hn. apply elem_of_list_to_map_2 in Hn.
  repeat (apply elem_of_cons in Hn as [Hn|Hn];
          [injection Hn as -> ->; split;
           [unfold supported; lia | repeat (constructor; [lia|]); constructor]|]).
  by apply elem_of_nil in Hn.
Qed.

Lemma taps_unsupported n : ¬ supported n → taps !! n = None.
Proof.
  intros Hn. destruct (taps !! n) as [ts|] eqn:E; [|done].
  by apply taps_in_table in E as [? _].
Qed.

Lemma foldl_lxor_xor_all acc xs : foldl Z.lxor acc xs = Z.lxor acc (xor_all xs).
Proof.
  revert acc. induction xs as [|x xs IH]; intros acc; simpl.
  - by rewrite Z.lxor_0_r.
  - by rewrite IH, Z.lxor_assoc.
Qed.

Lemma is_bit_xor_all xs : Forall is_bit xs → is_bit (xor_all xs).
Proof.
  induction 1; simpl; [by left|]. by apply is_bit_lxor.
Qed.

(** The loop over the tap positions reads the tapped items in order. *)
Lemma galois_loop_run (h : store) l state ts acc :
  h !! l = Some state → Forall (λ t, (t < length state)%nat) ts →
  ∃ xs, Forall2 (λ t x, state !! t = Some x) ts xs ∧
        for_in ts (λ result tap, let* x := getitem l tap in ret (Z.lxor result x))
          acc h
        = (Ok (foldl Z.lxor acc xs), h).
Proof.
  intros Hl Hts. revert acc. induction Hts as [|t ts Ht _ IH]; intros acc.
  - exists []. split; [constructor|reflexivity].
  - apply lookup_lt_is_Some_2 in Ht as [x Hx].
    destruct (IH (Z.lxor acc x)) as (xs & Hxs & Hrun).
    exists (x :: xs). split; [by constructor|].
    simpl. rewrite (bind_run _ _ _ _ _ (bind_run _ _ _ _ _ (getitem_run h l state Hl t x Hx))).
    exact Hrun.
Qed.

Lemma galois_lfsr_run (h : store) l state ts :
  h !! l = Some state → taps !! Z.of_nat (length state) = Some ts →
  ∃ xs, Forall2 (λ t x, state !! t = Some x) ts xs ∧
        call galois_lfsr h l = Ok (xor_all xs).
Proof.
  intros Hl Hts. unfold galois_lfsr. run_on Hl. rewrite Hts.
  destruct (taps_in_table _ _ Hts) as [_ Hrange].
  destruct (galois_loop_run h l state ts 0 Hl) as (xs & Hxs & Hrun).
  { eapply Forall_impl; [exact Hrange|]. simpl. intros; lia. }
  exists xs. split; [done|].
  by rewrite Hrun, foldl_lxor_xor_all, Z.lxor_0_l.
Qed.

Lemma galois_lfsr_no_taps (h : store) l state :
  h !! l = Some state → taps !! Z.of_nat (length state) = None →
  ∃ msg, call galois_lfsr h l = Raise (ValueError msg).
Proof.
  intros Hl Hts. unfold galois_lfsr. run_on Hl. rewrite Hts. by eexists.
Qed.

Lemma tapped_bits state (ts : list nat) xs :
  bits state → Forall2 (λ t x, state !! t = Some x) ts xs → Forall is_bit xs.
Proof.
  intros Hb Hxs. induction Hxs as [|t x ts xs Htx _ IH]; constructor; [|done].
  exact (bits_lookup _ _ _ Hb Htx).
Qed.

(** C4. [galois_lfsr] raises exactly when the length of the state is not one
    of 2..11, 15..25, 28..32, and what it raises is a ValueError; on a state
    of bits of a supported length it returns the XOR of the bits at the tap
    positions of that length. *)
Theorem galois_lfsr_spec (h : store) (l : ref) (state : list Z) :
  h !! l = Some state →
  ((∃ e, call galois_lfsr h l = Raise e)
   ↔ ¬ supported (Z.of_nat (length state))) ∧
  (∀ e, call galois_lfsr h l = Raise e → ∃ msg, e = ValueError msg) ∧
  (bits state → supported (Z.of_nat (length state)) →
   ∃ ts xs, taps !! Z.of_nat (length state) = Some ts ∧
            Forall2 (λ t x, state !! t = Some x) ts xs ∧
            call galois_lfsr h l = Ok (xor_all xs) ∧ is_bit (xor_all xs)).
Proof.
  intros Hl.
  destruct (taps !! Z.of_nat (length state)) as [ts|] eqn:Hts.
  - destruct (taps_in_table _ _ Hts) as [Hsup _].
    destruct (galois_lfsr_run h l state ts Hl Hts) as (xs & Hxs & ->).
    split; [|split].
    + split; [by intros [e ?]|done].
    + by intros e ?.
    + intros Hb _. exists ts, xs. repeat split; [done|].
      apply is_bit_xor_all. by apply (tapped_bits state ts).
  - destruct (galois_lfsr_no_taps h l state Hl Hts) as [msg ->].
    split; [|split].
    + split; [|eauto]. intros _ Hsup. apply taps_supported in Hsup as [ts Hsup].
      congruence.
    + intros e [= <-]. eauto.
    + intros _ Hsup. apply taps_supported in Hsup as [ts Hsup]. congruence.
Qed.

Lemma galois_lfsr_spec_witness :
  ∃ b, call galois_lfsr {[ 0%nat := [1; 0; 1; 1; 0; 0; 1; 0] ]} 0%nat = Ok b
       ∧ is_bit b.
Proof.
  destruct (galois_lfsr_spec {[ 0%nat := [1; 0; 1; 1; 0; 0; 1; 0] ]} 0%nat
              [1; 0; 1; 1; 0; 0; 1; 0]) as (_ & _ & H); [reflexivity|].
  destruct H as (ts & xs & _ & _ & Hcall & Hbit).
  - solve_bits.
  - unfold supported. simpl. lia.
  - exists (xor_all xs). split; assumption.
Defined.

(** ** Doubles: the rounded quotient of two integers against 0.7 *)

Lemma digits2_pos_bounds p :
  2 ^ (Zpos (digits2_pos p) - 1) ≤ Zpos p < 2 ^ Zpos (digits2_pos p).
Proof.
  induction p as [p IH|p IH|]; simpl digits2_pos.
  - rewrite Pos2Z.inj_succ. replace (Z.succ (Z.pos (digits2_pos p)) - 1) with (Z.succ (Z.pos (digits2_pos p) - 1)) by lia.
    rewrite !Z.pow_succ_r by lia. lia.
  - rewrite Pos2Z.inj_succ. replace (Z.succ (Z.pos (digits2_pos p)) - 1) with (Z.succ (Z.pos (digits2_pos p) - 1)) by lia.
    rewrite !Z.pow_succ_r by lia. lia.
  - simpl. lia.
Qed.

Lemma digits2_pos_unique p d :
  2 ^ (d - 1) ≤ Zpos p < 2 ^ d → Zpos (digits2_pos p) = d.
Proof.
  intros [Hlo Hhi]. pose proof (digits2_pos_bounds p) as [Hlo' Hhi'].
  set (d' := Zpos (digits2_pos p)) in *.
  assert (0 < d) as Hd.
  { destruct (decide (0 < d)) as [|Hd]; [done|].
    rewrite Z.pow_neg_r in Hlo by lia.
    destruct (decide (d = 0)) as [->|]; [simpl in Hhi; lia|].
    rewrite Z.pow_neg_r in Hhi by lia. lia. }
  destruct (Z.lt_trichotomy d' d) as [Hlt|[Heq|Hgt]]; [|done|].
  - assert (2 ^ d' ≤ 2 ^ (d - 1)) by (apply Z.pow_le_mono_r; lia). lia.
  - assert (2 ^ d ≤ 2 ^ (d' - 1)) by (apply Z.pow_le_mono_r; lia). lia.
Qed.

Ltac norm_Z :=
  change IntDef.Z.eqb with Z.eqb in *;
  change IntDef.Z.leb with Z.leb in *;
  change IntDef.Z.compare with Z.compare in *;
  change IntDef.Z.add with Z.add in *;
  change IntDef.Z.sub with Z.sub in *;
  change IntDef.Z.mul with Z.mul in *;
  change IntDef.Z.opp with Z.opp in *;
  change IntDef.Z.min with Z.min in *;
  change IntDef.Z.max with Z.max in *;
  change IntDef.Z.even with Z.even in *;
  change IntDef.Z.shiftl with Z.shiftl in *;
  change IntDef.Z.div_eucl with Z.div_eucl in *.

Lemma new_location_spec n r :
  0 < n → 0 ≤ r < n →
  new_location n r = if decide (r = 0) then loc_Exact else loc_Inexact (2 * r ?= n).
Proof.
  intros Hn Hr. unfold new_location, new_location_even, new_location_odd. norm_Z.
  destruct (Z.even n) eqn:Hev; cbv beta;
    (destruct (decide (r = 0)) as [->|Hr0]; [done|]);
    assert ((r =? 0) = false) as -> by lia; [done|].
  f_equal.
  assert (Z.odd n = true) as Hodd by (by rewrite <- Z.negb_even, Hev).
  apply Z.odd_spec in Hodd as [j ->].
  destruct (Z.compare_spec (2 * r + 1) (2 * j + 1)) as [E1|E1|E1];
    destruct (Z.compare_spec (2 * r) (2 * j + 1)) as [E'|E'|E']; try done; lia.
Qed.

Lemma loc_of_shr_record_of_loc m loc :
  loc_of_shr_record (shr_record_of_loc m loc) = loc.
Proof. by destruct loc as [|[]]. Qed.

Lemma shr_m_of_loc m loc : shr_m (shr_record_of_loc m loc) = m.
Proof. by destruct loc as [|[]]. Qed.

Lemma Zdigits2_unique q d : 0 < q → 2 ^ (d - 1) ≤ q < 2 ^ d → Zdigits2 q = d.
Proof.
  intros Hq Hd. destruct q as [|p|p]; try lia. simpl. by apply digits2_pos_unique.
Qed.

Lemma round_nearest_even_bounds m loc :
  m ≤ round_nearest_even m loc ≤ m + 1.
Proof.
  unfold round_nearest_even. norm_Z.
  destruct loc as [|[]]; try destruct (Z.even m); lia.
Qed.

(** A mantissa of 53 digits is kept; [2^53] is renormalised to [2^52]. *)
Lemma normalize_exact m e :
  4503599627370496 ≤ m ≤ 9007199254740992 → -1074 ≤ e ≤ 900 →
  (let '(mrs, e') := shr_fexp prec emax m e loc_Exact in
   match shr_m mrs with
   | Z0 => S754_zero false
   | Zpos p => if Z.leb e' (emax - prec) then S754_finite false p e' else S754_infinity false
   | Zneg _ => S754_nan
   end)
  = if decide (m = 9007199254740992) then S754_finite false 4503599627370496 (e + 1)
    else S754_finite false (Z.to_pos m) e.
Proof.
  intros Hm He. unfold shr_fexp, fexp, emin, prec, emax. norm_Z.
  case_decide as Hc.
  - subst m. change (Zdigits2 9007199254740992) with 54.
    replace (Z.max (54 + e - 53) (3 - 1024 - 53) - e) with 1 by lia.
    cbn [shr shr_record_of_loc iter_pos shr_1 shr_m].
    assert ((e + 1 <=? 1024 - 53) = true) as -> by lia. done.
  - rewrite (Zdigits2_unique m 53) by (change (2 ^ (53 - 1)) with 4503599627370496;
      change (2 ^ 53) with 9007199254740992; lia).
    replace (Z.max (53 + e - 53) (3 - 1024 - 53) - e) with 0 by lia.
    cbn [shr shr_record_of_loc iter_pos shr_1 shr_m]. destruct m as [|p|p]; try lia.
    assert ((e <=? 1024 - 53) = true) as -> by lia. done.
Qed.

Lemma shr_fexp_53 q e loc :
  4503599627370496 ≤ q < 9007199254740992 → -1074 ≤ e →
  shr_fexp prec emax q e loc = (shr_record_of_loc q loc, e).
Proof.
  intros Hq He. unfold shr_fexp, fexp, emin, prec, emax. norm_Z.
  rewrite (Zdigits2_unique q 53) by (change (2 ^ (53 - 1)) with 4503599627370496;
    change (2 ^ 53) with 9007199254740992; lia).
  replace (Z.max (53 + e - 53) (3 - 1024 - 53) - e) with 0 by lia. done.
Qed.

Lemma shr_fexp_54 q e loc :
  9007199254740992 ≤ q < 18014398509481984 → -1074 ≤ e →
  shr_fexp prec emax q e loc = (shr_1 (shr_record_of_loc q loc), e + 1).
Proof.
  intros Hq He. unfold shr_fexp, fexp, emin, prec, emax. norm_Z.
  rewrite (Zdigits2_unique q 54) by (change (2 ^ (54 - 1)) with 9007199254740992;
    change (2 ^ 54) with 18014398509481984; lia).
  replace (Z.max (54 + e - 53) (3 - 1024 - 53) - e) with 1 by lia. done.
Qed.

Lemma shr_1_of_loc q loc :
  0 < q →
  shr_m (shr_1 (shr_record_of_loc q loc)) = q `div` 2 ∧
  loc_of_shr_record (shr_1 (shr_record_of_loc q loc)) = halved_location q loc.
Proof.
  intros Hq. destruct q as [|p|p]; try lia.
  destruct p as [p|p|]; destruct loc as [|[]]; cbn [shr_record_of_loc shr_1 shr_m];
    unfold halved_location; (split; [|reflexivity]).
  all: try (rewrite Pos2Z.inj_xI; apply Z.div_unique with (r := 1); lia).
  all: try (rewrite Pos2Z.inj_xO; apply Z.div_unique with (r := 0); lia).
  all: reflexivity.
Qed.

Lemma binary_round_aux_53 q e loc :
  4503599627370496 ≤ q < 9007199254740992 → -1074 ≤ e ≤ 900 →
  binary_round_aux prec emax false q e loc
  = let m := round_nearest_even q loc in
    if decide (m = 9007199254740992) then S754_finite false 4503599627370496 (e + 1)
    else S754_finite false (Z.to_pos m) e.
Proof.
  intros Hq He. unfold binary_round_aux.
  rewrite shr_fexp_53 by lia.
  rewrite shr_m_of_loc, loc_of_shr_record_of_loc.
  pose proof (round_nearest_even_bounds q loc).
  apply normalize_exact; lia.
Qed.

Lemma binary_round_aux_54 q e loc :
  9007199254740992 ≤ q < 18014398509481984 → -1074 ≤ e ≤ 800 →
  binary_round_aux prec emax false q e loc
  = let m := round_nearest_even (q `div` 2) (halved_location q loc) in
    if decide (m = 9007199254740992) then S754_finite false 4503599627370496 (e + 2)
    else S754_finite false (Z.to_pos m) (e + 1).
Proof.
  intros Hq He. unfold binary_round_aux.
  rewrite shr_fexp_54 by lia.
  destruct (shr_1_of_loc q loc) as [-> ->]; [lia|].
  pose proof (round_nearest_even_bounds (q `div` 2) (halved_location q loc)).
  assert (4503599627370496 ≤ q `div` 2 < 9007199254740992).
  { split; [apply Z.div_le_lower_bound; lia|apply Z.div_lt_upper_bound; lia]. }
  replace (e + 2) with (e + 1 + 1) by lia.
  apply normalize_exact; lia.
Qed.

Lemma SFdiv_core_ints (k n : positive) :
  let delta := Zpos (digits2_pos n) - Zpos (digits2_pos k) in
  0 ≤ delta ≤ 1021 →
  SFdiv_core_binary prec emax (Zpos k) 0 (Zpos n) 0
  = ((Zpos k * 2 ^ (53 + delta)) `div` Zpos n, - 53 - delta,
     new_location (Zpos n) ((Zpos k * 2 ^ (53 + delta)) `mod` Zpos n)).
Proof.
  intros delta Hd. unfold SFdiv_core_binary, fexp, emin, prec, emax. norm_Z.
  cbn [Zdigits2]. fold delta.
  replace (Z.min (Z.max (Z.pos (digits2_pos k) + 0 - (Z.pos (digits2_pos n) + 0) - 53)
                    (3 - 1024 - 53)) (0 - 0)) with (- 53 - delta) by (unfold delta; lia).
  replace (0 - 0 - (- 53 - delta)) with (53 + delta) by lia.
  destruct (53 + delta) as [|s|s] eqn:Hs; try lia.
  rewrite Z.shiftl_mul_pow2 by lia.
  unfold Z.div, Z.modulo. by destruct (Z.div_eucl _ _).
Qed.

Lemma SFcompare_finite_pos m1 e1 m2 e2 :
  SFcompare (S754_finite false m1 e1) (S754_finite false m2 e2)
  = Some match e1 ?= e2 with
         | Lt => Lt
         | Gt => Gt
         | Eq => (m1 ?= m2)%positive
         end.
Proof. reflexivity. Qed.

Lemma float_ge_0_7 m e :
  float_ge (S754_finite false m e) float_0_7 = true
  ↔ -53 < e ∨ (e = -53 ∧ 6305039478318694 ≤ Zpos m).
Proof.
  unfold float_ge, SFleb, float_0_7. rewrite SFcompare_finite_pos.
  destruct (Z.compare_spec (-53) e) as [E|E|E].
  - destruct (Pos.compare_spec 6305039478318694 m) as [E'|E'|E'];
      [subst m|apply Pos2Z.pos_lt_pos in E'..].
    + split; [intros _|done]. lia.
    + split; [intros _|done]. lia.
    + split; [done|]. intros [?|[_ ?]]; exfalso; lia.
  - split; [intros _; by left|done].
  - split; [done|]. intros [?|[? _]]; exfalso; lia.
Qed.

Lemma round_nearest_even_down m loc :
  loc = loc_Exact ∨ loc = loc_Inexact Lt → round_nearest_even m loc = m.
Proof. by intros [-> | ->]. Qed.

(** Whether the rounded quotient reaches [0.7], from the truncated quotient
    [q] at exponent [e] and the location of the exact quotient above it. *)
Lemma binary_round_aux_ge_0_7 q e loc :
  4503599627370496 ≤ q < 18014398509481984 → -1074 ≤ e ≤ 800 →
  float_ge (binary_round_aux prec emax false q e loc) float_0_7 = true
  ↔ if decide (q < 9007199254740992)
    then -53 < e ∨ (e = -53 ∧ 6305039478318694 ≤ round_nearest_even q loc)
    else -53 < e + 1 ∨
         (e + 1 = -53 ∧
          6305039478318694 ≤ round_nearest_even (q `div` 2) (halved_location q loc)).
Proof.
  intros Hq He. case_decide as H53.
  - rewrite binary_round_aux_53 by lia. cbv zeta.
    pose proof (round_nearest_even_bounds q loc).
    case_decide as Hc; rewrite float_ge_0_7.
    + rewrite Hc. lia.
    + rewrite Z2Pos.id by lia. lia.
  - rewrite binary_round_aux_54 by lia. cbv zeta.
    pose proof (round_nearest_even_bounds (q `div` 2) (halved_location q loc)).
    assert (4503599627370496 ≤ q `div` 2).
    { apply Z.div_le_lower_bound; lia. }
    case_decide as Hc; rewrite float_ge_0_7.
    + rewrite Hc. lia.
    + rewrite Z2Pos.id by lia. lia.
Qed.

(** Below the threshold: the exact quotient lies more than half a unit in
    the last place below [0.7], so it cannot round up to it. *)
Lemma round_below_0_7 (K N q r : Z) :
  0 < N → 9 * N < 9007199254740992 → 10 * K < 7 * N →
  9007199254740992 * K = N * q + r → 0 ≤ r < N →
  round_nearest_even q (new_location N r) ≤ 6305039478318693.
Proof.
  intros HN Hbound Hlt Hdiv Hr.
  assert (2 * (N * q + r) < 12610078956637387 * N) as Hhalf by lia.
  pose proof (round_nearest_even_bounds q (new_location N r)) as Hrne.
  destruct (decide (q ≤ 6305039478318692)) as [|Hq]; [lia|].
  destruct (decide (q = 6305039478318693)) as [->|Hq'].
  - rewrite round_nearest_even_down; [lia|].
    rewrite new_location_spec by lia. case_decide; [by left|right].
    f_equal. apply Z.compare_lt_iff. lia.
  - assert (N * 6305039478318694 ≤ N * q) by (apply Z.mul_le_mono_nonneg_l; lia).
    lia.
Qed.

Lemma round_below_0_7_halved (K N q r : Z) :
  0 < N → 9 * N < 9007199254740992 → 10 * K < 7 * N →
  18014398509481984 * K = N * q + r → 0 ≤ r < N → 0 ≤ q →
  round_nearest_even (q `div` 2) (halved_location q (new_location N r))
  ≤ 6305039478318693.
Proof.
  intros HN Hbound Hlt Hdiv Hr Hq0.
  assert (N * q + r < 12610078956637387 * N) as Hhalf by lia.
  assert (q ≤ 12610078956637386) as Hq.
  { destruct (decide (q ≤ 12610078956637386)) as [|Hq]; [done|].
    assert (N * 12610078956637387 ≤ N * q) by (apply Z.mul_le_mono_nonneg_l; lia).
    lia. }
  pose proof (round_nearest_even_bounds (q `div` 2)
                (halved_location q (new_location N r))) as Hrne.
  pose proof (Z.div_mod q 2 ltac:(lia)) as Hq2.
  pose proof (Z.mod_pos_bound q 2 ltac:(lia)) as Hq2'.
  destruct (decide (q `div` 2 ≤ 6305039478318692)) as [|Hh]; [lia|].
  assert (q `mod` 2 = 0) as Heven by lia.
  rewrite round_nearest_even_down; [lia|].
  unfold halved_location.
  rewrite <- Z.negb_even, (proj2 (Z.even_spec q)); [|exists (q `div` 2); lia].
  simpl. destruct (new_location N r); auto.
Qed.

(** The quotient of two positive integers [k ≤ n], rounded to a double,
    reaches the double [0.7] exactly when [k/n ≥ 7/10], as long as
    [9 n < 2^53]. *)
Lemma SFdiv_ge_0_7 (k n : positive) :
  Zpos k ≤ Zpos n → 9 * Zpos n < 9007199254740992 →
  float_ge (SFdiv prec emax (S754_finite false k 0) (S754_finite false n 0))
    float_0_7 = true
  ↔ 7 * Zpos n ≤ 10 * Zpos k.
Proof.
  intros Hkn Hbound.
  pose proof (digits2_pos_bounds k) as Hk2.
  pose proof (digits2_pos_bounds n) as Hn2.
  pose proof (SFdiv_core_ints k n) as Hcore. cbv zeta in Hcore.
  unfold SFdiv. 
  set (d1 := Zpos (digits2_pos k)) in *. set (d2 := Zpos (digits2_pos n)) in *.
  set (K := Zpos k) in *. set (N := Zpos n) in *.
  assert (0 < d1) as Hd1 by (unfold d1; lia).
  assert (0 < K) as HK by (unfold K; lia).
  assert (d1 ≤ d2) as Hd12.
  { destruct (decide (d1 ≤ d2)); [done|].
    assert (2 ^ d2 ≤ 2 ^ (d1 - 1)) by (apply Z.pow_le_mono_r; lia). lia. }
  assert (d2 ≤ 53) as Hd2.
  { destruct (decide (d2 ≤ 53)); [done|].
    assert (2 ^ 53 ≤ 2 ^ (d2 - 1)) as Hp by (apply Z.pow_le_mono_r; lia).
    change (2 ^ 53) with 9007199254740992 in Hp. lia. }
  rewrite Hcore by lia. clear Hcore. cbn [xorb].
  set (delta := d2 - d1) in *.
  set (A := 2 ^ (d1 - 1)) in *. set (P := 2 ^ delta).
  assert (0 < A) as HA by (apply Z.pow_pos_nonneg; lia).
  assert (0 < P) as HP by (apply Z.pow_pos_nonneg; lia).
  assert (2 ^ d1 = 2 * A) as Ed1.
  { unfold A. rewrite <- Z.pow_succ_r by lia. f_equal. lia. }
  assert (2 ^ (d2 - 1) = A * P) as Ed2'.
  { unfold A, P. rewrite <- Z.pow_add_r by lia. f_equal. lia. }
  assert (2 ^ d2 = 2 * (A * P)) as Ed2.
  { rewrite <- Ed2', <- Z.pow_succ_r by lia. f_equal. lia. }
  rewrite Ed1 in Hk2. rewrite Ed2', Ed2 in Hn2.
  assert (2 ^ (53 + delta) = 9007199254740992 * P) as ->.
  { unfold P. rewrite Z.pow_add_r by lia. reflexivity. }
  replace (K * (9007199254740992 * P)) with (9007199254740992 * (K * P)) by lia.
  set (T := A * P) in *. set (KD := K * P).
  assert (T ≤ KD < 2 * T) as HKD.
  { unfold T, KD. split.
    - apply Z.mul_le_mono_nonneg_r; lia.
    - replace (2 * (A * P)) with (2 * A * P) by lia.
      apply Z.mul_lt_mono_pos_r; lia. }
  pose proof (Z.div_mod (9007199254740992 * KD) N ltac:(lia)) as Hdiv.
  pose proof (Z.mod_pos_bound (9007199254740992 * KD) N ltac:(lia)) as Hr.
  set (q := (9007199254740992 * KD) `div` N) in *.
  set (r := (9007199254740992 * KD) `mod` N) in *.
  assert (4503599627370496 ≤ q < 18014398509481984) as Hq.
  { split.
    - apply Z.div_le_lower_bound; lia.
    - apply Z.div_lt_upper_bound; lia. }
  rewrite binary_round_aux_ge_0_7 by lia.
  destruct (decide (delta = 0)) as [E0|E0]; [|destruct (decide (delta = 1)) as [E1|E1]].
  - (* same number of digits *)
    assert (KD = K) as EKD by (unfold KD, P; rewrite E0; simpl; lia).
    rewrite EKD in *. rewrite E0. case_decide as H53.
    + split.
      * intros [?|[_ Hge]]; [lia|].
        destruct (decide (7 * N ≤ 10 * K)) as [|Hlt]; [done|].
        pose proof (round_below_0_7 K N q r ltac:(lia) ltac:(lia) ltac:(lia)
                      Hdiv Hr). lia.
      * intros Hge. right. split; [done|].
        pose proof (round_nearest_even_bounds q (new_location N r)).
        assert (6305039478318694 ≤ q); [|lia].
        apply Z.div_le_lower_bound; lia.
    + split; [intros _|lia].
      assert (N * 9007199254740992 ≤ N * q) by (apply Z.mul_le_mono_nonneg_l; lia).
      lia.
  - (* the divisor has one digit more *)
    assert (KD = 2 * K) as EKD by (unfold KD, P; rewrite E1; simpl; lia).
    rewrite EKD in *. rewrite E1. case_decide as H53.
    + split; [lia|]. intros Hge. exfalso.
      assert (N * q ≤ N * 9007199254740991) by (apply Z.mul_le_mono_nonneg_l; lia).
      lia.
    + split.
      * intros [?|[_ Hge]]; [lia|].
        destruct (decide (7 * N ≤ 10 * K)) as [|Hlt]; [done|].
        pose proof (round_below_0_7_halved K N q r ltac:(lia) ltac:(lia) ltac:(lia)
                      ltac:(lia) Hr ltac:(lia)). lia.
      * intros Hge. right. split; [done|].
        pose proof (round_nearest_even_bounds (q `div` 2)
                      (halved_location q (new_location N r))).
        assert (6305039478318694 ≤ q `div` 2); [|lia].
        apply Z.div_le_lower_bound; [lia|].
        apply Z.div_le_lower_bound; lia.
  - (* the divisor has at least two digits more *)
    assert (4 ≤ P) as HP4.
    { change 4 with (2 ^ 2). apply Z.pow_le_mono_r; lia. }
    assert (A * 4 ≤ T) by (apply Z.mul_le_mono_nonneg_l; lia).
    case_decide; split; lia.
Qed.

Lemma Zdigits2_le q d : 0 ≤ q < 2 ^ d → 0 ≤ d → Zdigits2 q ≤ d.
Proof.
  intros Hq Hd. destruct q as [|p|p]; [done| |lia]. cbn [Zdigits2].
  pose proof (digits2_pos_bounds p) as [Hlo _].
  destruct (decide (Z.pos (digits2_pos p) ≤ d)) as [|Hgt]; [done|].
  assert (2 ^ d ≤ 2 ^ (Z.pos (digits2_pos p) - 1)) by (apply Z.pow_le_mono_r; lia).
  lia.
Qed.

(** At the least exponent nothing is shifted out: the result is a zero or a
    (possibly subnormal) finite double. *)
Lemma binary_round_aux_least q loc s :
  0 ≤ q < 9007199254740992 →
  binary_round_aux prec emax false q (-1074) loc ≠ S754_infinity s.
Proof.
  intros Hq. unfold binary_round_aux.
  assert (∀ m l, 0 ≤ m < 9007199254740992 →
            shr_fexp prec emax m (-1074) l = (shr_record_of_loc m l, -1074))
    as Hkeep.
  { intros m l Hm. unfold shr_fexp, fexp, emin, prec, emax. norm_Z.
    pose proof (Zdigits2_le m 53 ltac:(change (2 ^ 53) with 9007199254740992; lia)
                  ltac:(lia)).
    assert (0 ≤ Zdigits2 m) by (destruct m; simpl; lia).
    replace (Z.max (Zdigits2 m + -1074 - 53) (3 - 1024 - 53) - -1074) with 0 by lia.
    done. }
  rewrite Hkeep by done. rewrite shr_m_of_loc, loc_of_shr_record_of_loc.
  pose proof (round_nearest_even_bounds q loc) as Hm.
  destruct (decide (round_nearest_even q loc = 9007199254740992)) as [->|Hne].
  - vm_compute. discriminate.
  - rewrite Hkeep by lia. rewrite shr_m_of_loc.
    destruct (round_nearest_even q loc) as [|m|m]; [done| |done].
    change (-1074 <=? emax - prec) with true. done.
Qed.

Lemma SFdiv_core_ints_far (k n : positive) :
  1021 ≤ Zpos (digits2_pos n) - Zpos (digits2_pos k) →
  SFdiv_core_binary prec emax (Zpos k) 0 (Zpos n) 0
  = ((Zpos k * 2 ^ 1074) `div` Zpos n, - 1074,
     new_location (Zpos n) ((Zpos k * 2 ^ 1074) `mod` Zpos n)).
Proof.
  intros Hd. unfold SFdiv_core_binary, fexp, emin, prec, emax. norm_Z.
  cbn [Zdigits2].
  replace (Z.min (Z.max (Z.pos (digits2_pos k) + 0 - (Z.pos (digits2_pos n) + 0) - 53)
                    (3 - 1024 - 53)) (0 - 0)) with (- 1074) by lia.
  change (0 - 0 - - 1074) with 1074. cbv iota.
  rewrite Z.shiftl_mul_pow2 by lia.
  unfold Z.div, Z.modulo. by destruct (Z.div_eucl _ _).
Qed.

(** The quotient of a count by a larger count never overflows. *)
Lemma SFdiv_count_finite (k n : positive) s :
  Zpos k ≤ Zpos n →
  SFdiv prec emax (S754_finite false k 0) (S754_finite false n 0)
  ≠ S754_infinity s.
Proof.
  intros Hkn.
  pose proof (digits2_pos_bounds k) as Hk2.
  pose proof (digits2_pos_bounds n) as Hn2.
  pose proof (SFdiv_core_ints k n) as Hcore. cbv zeta in Hcore.
  pose proof (SFdiv_core_ints_far k n) as Hfar.
  unfold SFdiv.
  set (d1 := Zpos (digits2_pos k)) in *. set (d2 := Zpos (digits2_pos n)) in *.
  set (K := Zpos k) in *. set (N := Zpos n) in *.
  assert (0 < d1) as Hd1 by (unfold d1; lia).
  assert (0 < K) as HK by (unfold K; lia).
  assert (d1 ≤ d2) as Hd12.
  { destruct (decide (d1 ≤ d2)); [done|].
    assert (2 ^ d2 ≤ 2 ^ (d1 - 1)) by (apply Z.pow_le_mono_r; lia). lia. }
  set (delta := d2 - d1) in *.
  set (A := 2 ^ (d1 - 1)) in *. set (P := 2 ^ delta).
  assert (0 < A) as HA by (apply Z.pow_pos_nonneg; lia).
  assert (0 < P) as HP by (apply Z.pow_pos_nonneg; lia).
  assert (2 ^ d1 = 2 * A) as Ed1.
  { unfold A. rewrite <- Z.pow_succ_r by lia. f_equal. lia. }
  assert (2 ^ (d2 - 1) = A * P) as Ed2'.
  { unfold A, P. rewrite <- Z.pow_add_r by lia. f_equal. lia. }
  assert (2 ^ d2 = 2 * (A * P)) as Ed2.
  { rewrite <- Ed2', <- Z.pow_succ_r by lia. f_equal. lia. }
  rewrite Ed1 in Hk2. rewrite Ed2', Ed2 in Hn2.
  cbn [xorb].
  destruct (decide (delta ≤ 1021)) as [Hnear|Hfar'].
  - rewrite Hcore by lia.
    assert (2 ^ (53 + delta) = 9007199254740992 * P) as ->.
    { unfold P. rewrite Z.pow_add_r by lia. reflexivity. }
    replace (K * (9007199254740992 * P)) with (9007199254740992 * (K * P)) by lia.
    set (T := A * P) in *. set (KD := K * P).
    assert (T ≤ KD < 2 * T) as HKD.
    { unfold T, KD. split.
      - apply Z.mul_le_mono_nonneg_r; lia.
      - replace (2 * (A * P)) with (2 * A * P) by lia.
        apply Z.mul_lt_mono_pos_r; lia. }
    assert (KD ≤ N * P) as HKDN.
    { unfold KD. apply Z.mul_le_mono_nonneg_r; lia. }
    set (q := (9007199254740992 * KD) `div` N).
    assert (4503599627370496 ≤ q).
    { apply Z.div_le_lower_bound; lia. }
    assert (q < 18014398509481984).
    { apply Z.div_lt_upper_bound; lia. }
    destruct (decide (q < 9007199254740992)).
    + rewrite binary_round_aux_53 by lia. cbv zeta. by case_decide.
    + rewrite binary_round_aux_54 by lia. cbv zeta. by case_decide.
  - rewrite Hfar by lia. apply binary_round_aux_least. split.
    + apply Z.div_pos; [|lia]. apply Z.mul_nonneg_nonneg; [lia|].
      apply Z.pow_nonneg. lia.
    + apply Z.div_lt_upper_bound; [lia|].
      set (R := 2 ^ 1021).
      assert (0 < R) as HR by (apply Z.pow_pos_nonneg; lia).
      assert (2 ^ 1074 = 9007199254740992 * R) as ->.
      { unfold R. change 1074 with (53 + 1021). rewrite Z.pow_add_r by lia.
        reflexivity. }
      assert (2 * R ≤ P) as HRP.
      { unfold R, P. rewrite <- Z.pow_succ_r by lia. apply Z.pow_le_mono_r; lia. }
      assert (K * R < 2 * A * R) by (apply Z.mul_lt_mono_pos_r; lia).
      assert (A * (2 * R) ≤ A * P) by (apply Z.mul_le_mono_nonneg_l; lia).
      lia.
Qed.

(** The division of a count by a count that is not smaller returns. *)
Lemma truediv_count (k n : Z) (h : store) :
  0 ≤ k ≤ n → 0 < n →
  truediv k n h = (Ok (SFdiv prec emax (int_operand k) (int_operand n)), h).
Proof.
  intros Hk Hn. unfold truediv. rewrite decide_False by lia.
  destruct n as [|n|n]; try lia. destruct k as [|k|k]; try lia; [done|].
  cbn [int_operand].
  destruct (SFdiv _ _ _ _) as [| s | |] eqn:E; try done.
  exfalso. exact (SFdiv_count_finite k n s ltac:(lia) E).
Qed.

(** ** Every entry of [functions] returns one bit *)

Lemma trivium_feedback_bit (h : store) l state :
  h !! l = Some state → (3 ≤ length state)%nat →
  ∃ b, call trivium_feedback h l = Ok b ∧ is_bit b.
Proof.
  intros Hl Hn. destruct state as [|x0 [|x1 [|x2 rest]]]; simpl in Hn; try lia.
  unfold trivium_feedback. run_on Hl. case_decide; [simpl in *; lia|].
  run_on Hl. eexists. split; [reflexivity|apply is_bit_mod2].
Qed.

Lemma alternating_step_generator_bit (h : store) l state :
  h !! l = Some state → bits state → (3 ≤ length state)%nat →
  ∃ b, call alternating_step_generator h l = Ok b ∧ is_bit b.
Proof.
  intros Hl Hb Hn. destruct state as [|x0 [|x1 [|x2 rest]]]; simpl in Hn; try lia.
  unfold alternating_step_generator. run_on Hl. case_decide; [simpl in *; lia|].
  run_on Hl. case_decide.
  - rewrite (getitem_run h l _ Hl 1%nat x1 eq_refl). exists x1.
    split; [reflexivity|]. by apply (bits_lookup _ 1%nat _ Hb).
  - rewrite (getitem_run h l _ Hl 2%nat x2 eq_refl). exists x2.
    split; [reflexivity|]. by apply (bits_lookup _ 2%nat _ Hb).
Qed.

Lemma threshold_function_run (h : store) l state threshold :
  h !! l = Some state → bits state → state ≠ [] →
  call (λ l, threshold_function l threshold) h l
  = Ok (if float_ge (SFdiv prec emax (int_operand (ones state))
                       (int_operand (Z.of_nat (length state)))) threshold
        then 1 else 0).
Proof.
  intros Hl Hb Hne. unfold threshold_function. run_on Hl.
  rewrite (sum_bits state Hb).
  assert (0 < Z.of_nat (length state)) as Hpos.
  { destruct state; [done|]. simpl length. lia. }
  by rewrite (bind_run _ _ _ _ _ (truediv_count _ _ h (ones_bounds state) Hpos)).
Qed.

Lemma threshold_with_feedback_run (h : store) l state :
  h !! l = Some state → bits state → state ≠ [] →
  call threshold_with_feedback h l
  = Ok (if float_ge (SFdiv prec emax (int_operand (ones state))
                       (int_operand (Z.of_nat (length state)))) float_0_7
        then 1 else 0).
Proof. apply threshold_function_run. Qed.

(** C2. Every function of the [functions] dictionary, called on a state of
    bits whose length meets that function's own requirement, returns a value
    that is 0 or 1. *)
Theorem functions_return_a_bit name f (h : store) (l : ref) (state : list Z) :
  functions !! name = Some f → h !! l = Some state → bits state →
  length_precondition name (Z.of_nat (length state)) →
  ∃ b, call f h l = Ok b ∧ is_bit b.
Proof.
  intros Hf Hl Hb Hpre. apply functions_entries in Hf.
  destruct Hf as [[-> ->]|[[-> ->]|[[-> ->]|[[-> ->]|[[-> ->]|[[-> ->]|[-> ->]]]]]]];
    unfold length_precondition in Hpre; repeat case_decide; try done.
  - destruct state as [|x0 [|x1 [|x2 [|x3 [|x4 rest]]]]]; simpl in Hpre; try lia.
    rewrite (grain_feedback_value h l _ _ _ _ _ _ Hl).
    eexists. split; [reflexivity|apply is_bit_mod2].
  - apply (trivium_feedback_bit h l state); [done|lia].
  - apply (alternating_step_generator_bit h l state); [done..|lia].
  - rewrite (majority_function_run h l state Hl Hb).
    eexists. split; [reflexivity|]. unfold is_bit. case_decide; auto.
  - rewrite (threshold_with_feedback_run h l state Hl Hb).
    + eexists. split; [reflexivity|]. unfold is_bit. destruct (float_ge _ _); auto.
    + intros ->. simpl in Hpre. lia.
  - rewrite (even_parity_run h l state Hl).
    eexists. split; [reflexivity|apply is_bit_mod2].
  - destruct Hpre as [ts Hts].
    destruct (galois_lfsr_run h l state ts Hl Hts) as (xs & Hxs & ->).
    eexists. split; [reflexivity|].
    apply is_bit_xor_all. by apply (tapped_bits state ts).
Qed.

Lemma functions_return_a_bit_witness :
  ∃ b, call threshold_with_feedback {[ 0%nat := [1; 1; 0; 1] ]} 0%nat = Ok b
       ∧ is_bit b.
Proof.
  apply (functions_return_a_bit "Threshold (70%)" threshold_with_feedback
           {[ 0%nat := [1; 1; 0; 1] ]} 0%nat [1; 1; 0; 1]).
  - reflexivity.
  - reflexivity.
  - solve_bits.
  - unfold length_precondition. simpl. lia.
Defined.

(** ** threshold_with_feedback *)

(** C7. [threshold_with_feedback] is exact at threshold 0.7: on every
    non-empty state of bits that a list can hold in memory it returns 1
    exactly when 10 * (number of ones) >= 7 * (length of the state), and 0
    otherwise. The division and the comparison are in doubles, and agree with
    the exact ones on every state shorter than 1000799917193444 items (that
    is, while 9 * length < 2^53); a list that long would take 8 petabytes of
    item slots. *)
Theorem threshold_with_feedback_spec (h : store) (l : ref) (state : list Z) :
  h !! l = Some state → bits state → state ≠ [] →
  Z.of_nat (length state) < 1000799917193444 →
  call threshold_with_feedback h l
  = Ok (if decide (10 * ones state >= 7 * Z.of_nat (length state)) then 1 else 0).
Proof.
  intros Hl Hb Hne Hlen.
  rewrite (threshold_with_feedback_run h l state Hl Hb Hne). f_equal.
  pose proof (ones_bounds state) as Hones.
  assert (0 < Z.of_nat (length state)) as Hpos.
  { destruct state; [done|]. simpl length. lia. }
  destruct (Z.of_nat (length state)) as [|n|n] eqn:En; try lia.
  destruct (ones state) as [|k|k] eqn:Ek; try lia.
  - cbn [int_operand SFdiv]. rewrite decide_False by lia. reflexivity.
  - cbn [int_operand].
    destruct (float_ge _ _) eqn:Hge.
    + apply (SFdiv_ge_0_7 k n ltac:(lia) ltac:(lia)) in Hge.
      rewrite decide_True by lia. reflexivity.
    + rewrite decide_False; [reflexivity|]. intros Hc.
      assert (7 * Z.pos n ≤ 10 * Z.pos k) as Hc' by lia.
      apply (SFdiv_ge_0_7 k n ltac:(lia) ltac:(lia)) in Hc'. congruence.
Qed.

Lemma threshold_with_feedback_spec_witness :
  call threshold_with_feedback {[ 0%nat := [1; 1; 0] ]} 0%nat = Ok 0.
Proof.
  apply (threshold_with_feedback_spec {[ 0%nat := [1; 1; 0] ]} 0%nat [1; 1; 0]).
  - reflexivity.
  - solve_bits.
  - discriminate.
  - simpl. lia.
Defined.

(** A state of [a] ones followed by [b] zeros. *)
Lemma ones_app xs ys : ones (xs ++ ys) = ones xs + ones ys.
Proof. unfold ones. rewrite count_occ_app. lia. Qed.

Lemma ones_replicate_1 a : ones (replicate a 1) = Z.of_nat a.
Proof.
  induction a as [|a IH]; [reflexivity|].
  cbn [replicate]. rewrite ones_cons, IH, decide_True by done. lia.
Qed.

Lemma ones_replicate_0 b : ones (replicate b 0) = 0.
Proof.
  induction b as [|b IH]; [reflexivity|].
  cbn [replicate]. rewrite ones_cons, IH, decide_False by done. lia.
Qed.

Lemma bits_ones_then_zeros a b : bits (replicate a 1 ++ replicate b 0).
Proof.
  apply Forall_app. split; apply Forall_replicate; [by right|by left].
Qed.

Lemma threshold_ones_then_zeros (a b : nat) :
  a ≠ 0%nat →
  call threshold_with_feedback {[ 0%nat := replicate a 1 ++ replicate b 0 ]} 0%nat
  = Ok (if float_ge (SFdiv prec emax (int_operand (Z.of_nat a))
                       (int_operand (Z.of_nat a + Z.of_nat b))) float_0_7
        then 1 else 0).
Proof.
  intros Ha.
  rewrite (threshold_with_feedback_run _ _ (replicate a 1 ++ replicate b 0)).
  - by rewrite ones_app, ones_replicate_1, ones_replicate_0, Z.add_0_r,
      length_app, !length_replicate, Nat2Z.inj_add.
  - apply lookup_singleton_eq.
  - apply bits_ones_then_zeros.
  - destruct a; [done|]. discriminate.
Qed.

Lemma threshold_rounds_up_to_0_7 (a b : nat) :
  Z.of_nat a = 700559942035417 → Z.of_nat b = 300239975158036 →
  let state := replicate a 1 ++ replicate b 0 in
  bits state ∧ state ≠ [] ∧
  call threshold_with_feedback {[ 0%nat := state ]} 0%nat = Ok 1 ∧
  ¬ 10 * ones state >= 7 * Z.of_nat (length state).
Proof.
  intros Ha Hb state. subst state.
  assert (a ≠ 0%nat) as Ha0 by (intros ->; discriminate Ha).
  split; [apply bits_ones_then_zeros|]. split.
  { destruct a; [done|]. discriminate. }
  split.
  - rewrite (threshold_ones_then_zeros a b Ha0), Ha, Hb.
    assert (float_ge
              (SFdiv prec emax (int_operand 700559942035417)
                 (int_operand (700559942035417 + 300239975158036)))
              float_0_7 = true) as -> by (vm_compute; reflexivity).
    reflexivity.
  - rewrite ones_app, ones_replicate_1, ones_replicate_0, length_app,
      !length_replicate, Nat2Z.inj_add, Ha, Hb.
    lia.
Qed.

(** The range above is where the doubles stop being exact. The model puts
    no bound on the length of a list, and in it 700559942035417 ones out of
    1000799917193453 bits, less than 7/10 of the state, give a quotient that
    rounds to the double [0.7], so that 1 is returned. No list of that size
    fits in memory. *)
Lemma threshold_with_feedback_not_exact :
  let state := replicate (Z.to_nat 700559942035417) 1
               ++ replicate (Z.to_nat 300239975158036) 0 in
  bits state ∧ state ≠ [] ∧
  call threshold_with_feedback {[ 0%nat := state ]} 0%nat = Ok 1 ∧
  ¬ 10 * ones state >= 7 * Z.of_nat (length state).
Proof.
  apply threshold_rounds_up_to_0_7; apply Z2Nat.id; discriminate.
Qed.

(** ** Further properties of the example library *)

(** *** trivium_feedback and alternating_step_generator *)

Lemma trivium_feedback_short (h : store) l state :
  h !! l = Some state → (length state < 3)%nat →
  call trivium_feedback h l
  = Raise (ValueError "Trivium feedback function requires at least 3 bits in the register").
Proof.
  intros Hl Hn. unfold trivium_feedback. run_on Hl. case_decide; [done|lia].
Qed.

Lemma trivium_feedback_value (h : store) l x0 x1 x2 rest :
  h !! l = Some (x0 :: x1 :: x2 :: rest) →
  call trivium_feedback h l = Ok (Z.lxor (Z.lxor x0 x2) (Z.land x1 x2) mod 2).
Proof.
  intros Hl. unfold trivium_feedback. run_on Hl.
  case_decide; [simpl in *; lia|]. by run_on Hl.
Qed.

(** X1. [trivium_feedback] raises exactly when the state has fewer than
    three items, and what it raises is a ValueError; on every longer list of
    integers it returns (x0 ^ x2 ^ (x1 & x2)) mod 2, which is 0 or 1. *)
Theorem trivium_feedback_spec (h : store) (l : ref) (state : list Z) :
  h !! l = Some state →
  ((∃ e, call trivium_feedback h l = Raise e) ↔ (length state < 3)%nat) ∧
  (∀ e, call trivium_feedback h l = Raise e → ∃ msg, e = ValueError msg) ∧
  ((3 ≤ length state)%nat →
   ∃ x0 x1 x2 b,
     state !! 0%nat = Some x0 ∧ state !! 1%nat = Some x1 ∧
     state !! 2%nat = Some x2 ∧
     call trivium_feedback h l = Ok b ∧
     b = Z.lxor (Z.lxor x0 x2) (Z.land x1 x2) mod 2 ∧ is_bit b).
Proof.
  intros Hl.
  destruct (decide (length state < 3)%nat) as [Hn|Hn].
  - rewrite (trivium_feedback_short h l state Hl Hn).
    split; [|split].
    + split; [done|eauto].
    + intros e [= <-]. eauto.
    + intros ?. lia.
  - destruct state as [|x0 [|x1 [|x2 rest]]]; simpl in Hn; try lia.
    rewrite (trivium_feedback_value h l _ _ _ _ Hl).
    split; [|split].
    + split; [by intros [e ?]|intros ?; simpl in *; lia].
    + by intros e ?.
    + intros _. exists x0, x1, x2. eexists.
      repeat (split; [reflexivity|]). apply is_bit_mod2.
Qed.

Lemma trivium_feedback_spec_witness :
  ∃ b, call trivium_feedback {[ 0%nat := [1; 1; 0; 1] ]} 0%nat = Ok b ∧ is_bit b.
Proof.
  destruct (trivium_feedback_spec {[ 0%nat := [1; 1; 0; 1] ]} 0%nat [1; 1; 0; 1])
    as (_ & _ & H); [reflexivity|].
  destruct H as (x0 & x1 & x2 & b & _ & _ & _ & Hb & _ & Hbit); [simpl; lia|].
  exists b. split; assumption.
Defined.

(** X2. [trivium_feedback] reads the first three items only: on two lists
    of at least three integers that agree at indices 0 to 2 it returns the
    same bit. *)
Theorem trivium_feedback_first_three (h1 h2 : store) (l1 l2 : ref)
    (state1 state2 : list Z) :
  h1 !! l1 = Some state1 → h2 !! l2 = Some state2 →
  (3 ≤ length state1)%nat → (3 ≤ length state2)%nat →
  (∀ i, (i < 3)%nat → state1 !! i = state2 !! i) →
  call trivium_feedback h1 l1 = call trivium_feedback h2 l2.
Proof.
  intros H1 H2 Hn1 Hn2 Hagree.
  destruct state1 as [|x0 [|x1 [|x2 r1]]]; simpl in Hn1; try lia.
  destruct state2 as [|y0 [|y1 [|y2 r2]]]; simpl in Hn2; try lia.
  rewrite (trivium_feedback_value h1 l1 _ _ _ _ H1).
  rewrite (trivium_feedback_value h2 l2 _ _ _ _ H2).
  pose proof (Hagree 0%nat ltac:(lia)) as E0.
  pose proof (Hagree 1%nat ltac:(lia)) as E1.
  pose proof (Hagree 2%nat ltac:(lia)) as E2.
  simpl in *. congruence.
Qed.

Lemma trivium_feedback_first_three_witness :
  call trivium_feedback {[ 0%nat := [1; 0; 1; 1; 0] ]} 0%nat
  = call trivium_feedback {[ 1%nat := [1; 0; 1] ]} 1%nat.
Proof.
  apply (trivium_feedback_first_three _ _ _ _ [1; 0; 1; 1; 0] [1; 0; 1]);
    try reflexivity; try (simpl; lia).
  intros i Hi. destruct i as [|[|[|i]]]; try reflexivity; lia.
Defined.

Lemma alternating_step_generator_short (h : store) l state :
  h !! l = Some state → (length state < 3)%nat →
  call alternating_step_generator h l
  = Raise (ValueError "Alternating step generator requires at least 3 bits in the register").
Proof.
  intros Hl Hn. unfold alternating_step_generator. run_on Hl.
  case_decide; [done|lia].
Qed.

Lemma alternating_step_generator_value (h : store) l x0 x1 x2 rest :
  h !! l = Some (x0 :: x1 :: x2 :: rest) →
  call alternating_step_generator h l = Ok (if decide (x0 = 1) then x1 else x2).
Proof.
  intros Hl. unfold alternating_step_generator. run_on Hl.
  case_decide; [simpl in *; lia|]. run_on Hl. case_decide.
  - by rewrite (getitem_run h l _ Hl 1%nat x1 eq_refl).
  - by rewrite (getitem_run h l _ Hl 2%nat x2 eq_refl).
Qed.

(** X3. [alternating_step_generator] raises exactly when the state has
    fewer than three items, and what it raises is a ValueError; on every
    longer list of integers it returns the item at index 1 when the item at
    index 0 is 1, and the item at index 2 otherwise. *)
Theorem alternating_step_generator_spec (h : store) (l : ref) (state : list Z) :
  h !! l = Some state →
  ((∃ e, call alternating_step_generator h l = Raise e)
   ↔ (length state < 3)%nat) ∧
  (∀ e, call alternating_step_generator h l = Raise e → ∃ msg, e = ValueError msg) ∧
  ((3 ≤ length state)%nat →
   ∃ x0 x1 x2,
     state !! 0%nat = Some x0 ∧ state !! 1%nat = Some x1 ∧
     state !! 2%nat = Some x2 ∧
     (x0 = 1 → call alternating_step_generator h l = Ok x1) ∧
     (x0 ≠ 1 → call alternating_step_generator h l = Ok x2)).
Proof.
  intros Hl.
  destruct (decide (length state < 3)%nat) as [Hn|Hn].
  - rewrite (alternating_step_generator_short h l state Hl Hn).
    split; [|split].
    + split; [done|eauto].
    + intros e [= <-]. eauto.
    + intros ?. lia.
  - destruct state as [|x0 [|x1 [|x2 rest]]]; simpl in Hn; try lia.
    rewrite (alternating_step_generator_value h l _ _ _ _ Hl).
    split; [|split].
    + split; [by intros [e ?]|intros ?; simpl in *; lia].
    + by intros e ?.
    + intros _. exists x0, x1, x2.
      repeat (split; [reflexivity|]). split; intros ?; case_decide; done.
Qed.

Lemma alternating_step_generator_spec_witness :
  call alternating_step_generator {[ 0%nat := [0; 1; 0; 1] ]} 0%nat = Ok 0.
Proof.
  destruct (alternating_step_generator_spec {[ 0%nat := [0; 1; 0; 1] ]} 0%nat
              [0; 1; 0; 1]) as (_ & _ & H); [reflexivity|].
  destruct H as (x0 & x1 & x2 & E0 & _ & E2 & _ & Hother); [simpl; lia|].
  injection E0 as <-. injection E2 as <-. by apply Hother.
Defined.

(** *** The functions of the count of ones *)

Lemma foldl_add_cons x xs : foldl Z.add 0 (x :: xs) = x + foldl Z.add 0 xs.
Proof. cbn [foldl]. by rewrite foldl_add_shift. Qed.

Lemma foldl_add_Permutation xs ys :
  xs ≡ₚ ys → foldl Z.add 0 xs = foldl Z.add 0 ys.
Proof.
  induction 1 as [|x xs ys _ IH|x y xs|xs ys zs _ IH1 _ IH2].
  - done.
  - by rewrite !foldl_add_cons, IH.
  - rewrite !foldl_add_cons. lia.
  - congruence.
Qed.

Lemma majority_function_sum_run (h : store) l state :
  h !! l = Some state →
  call majority_function h l
  = Ok (if decide (foldl Z.add 0 state > Z.of_nat (length state) `div` 2)
        then 1 else 0).
Proof. intros Hl. unfold majority_function. by run_on Hl. Qed.

Lemma truediv_result (a b : Z) (h : store) :
  truediv a b h = ((truediv a b ∅).1, h).
Proof. unfold truediv. case_decide; [done|]. by destruct (SFdiv _ _ _ _). Qed.

Lemma threshold_with_feedback_sum_run (h : store) l state :
  h !! l = Some state →
  call threshold_with_feedback h l
  = match (truediv (foldl Z.add 0 state) (Z.of_nat (length state)) ∅).1 with
    | Ok p => Ok (if float_ge p float_0_7 then 1 else 0)
    | Raise e => Raise e
    end.
Proof.
  intros Hl. unfold threshold_with_feedback, threshold_function. run_on Hl.
  unfold bind. rewrite truediv_result. by destruct (truediv _ _ ∅).1.
Qed.

(** X4. [threshold_with_feedback] raises on a state of bits exactly when the
    state is empty, and what it raises is a ZeroDivisionError. *)
Theorem threshold_with_feedback_raises (h : store) (l : ref) (state : list Z) :
  h !! l = Some state → bits state →
  ((∃ e, call threshold_with_feedback h l = Raise e) ↔ state = []) ∧
  (∀ e, call threshold_with_feedback h l = Raise e → e = ZeroDivisionError).
Proof.
  intros Hl Hb. destruct (decide (state = [])) as [->|Hne].
  - rewrite (threshold_with_feedback_sum_run h l [] Hl). cbn.
    split; [split; [done|eauto]|]. by intros e [= <-].
  - rewrite (threshold_with_feedback_run h l state Hl Hb Hne).
    split; [split; [by intros [e ?]|done]|]. by intros e ?.
Qed.

Lemma threshold_with_feedback_raises_witness :
  call threshold_with_feedback {[ 0%nat := [] ]} 0%nat = Raise ZeroDivisionError.
Proof.
  destruct (threshold_with_feedback_raises {[ 0%nat := [] ]} 0%nat [])
    as [[_ Hraise] Hexn]; [reflexivity|constructor|].
  destruct (Hraise eq_refl) as [e He]. rewrite He. f_equal. by apply Hexn.
Defined.

(** X5. [majority_function], [threshold_with_feedback] and [even_parity]
    are symmetric: on two lists of integers that are permutations of one
    another each returns, or raises, the same. *)
Theorem count_functions_symmetric (h1 h2 : store) (l1 l2 : ref)
    (state1 state2 : list Z) :
  h1 !! l1 = Some state1 → h2 !! l2 = Some state2 → state1 ≡ₚ state2 →
  call majority_function h1 l1 = call majority_function h2 l2 ∧
  call threshold_with_feedback h1 l1 = call threshold_with_feedback h2 l2 ∧
  call even_parity h1 l1 = call even_parity h2 l2.
Proof.
  intros H1 H2 Hperm.
  rewrite (majority_function_sum_run h1 l1 state1 H1),
    (majority_function_sum_run h2 l2 state2 H2),
    (threshold_with_feedback_sum_run h1 l1 state1 H1),
    (threshold_with_feedback_sum_run h2 l2 state2 H2),
    (even_parity_run h1 l1 state1 H1), (even_parity_run h2 l2 state2 H2).
  by rewrite (foldl_add_Permutation _ _ Hperm), (Permutation_length Hperm).
Qed.

Lemma count_functions_symmetric_witness :
  call majority_function {[ 0%nat := [1; 1; 0] ]} 0%nat
  = call majority_function {[ 0%nat := [0; 1; 1] ]} 0%nat.
Proof.
  destruct (count_functions_symmetric {[ 0%nat := [1; 1; 0] ]}
              {[ 0%nat := [0; 1; 1] ]} 0%nat 0%nat [1; 1; 0] [0; 1; 1])
    as [H _]; [reflexivity|reflexivity| |exact H].
  change [1; 1; 0] with ([1; 1] ++ [0]). change [0; 1; 1] with ([0] ++ [1; 1]).
  apply Permutation_app_comm.
Defined.

(** X6. [grain_feedback], [trivium_feedback], [majority_function] and
    [even_parity] return 0 or 1 on every list of integers that is long
    enough, whatever its items are. *)
Theorem bit_on_any_integers (h : store) (l : ref) (state : list Z) :
  h !! l = Some state →
  ((5 ≤ length state)%nat → ∃ b, call grain_feedback h l = Ok b ∧ is_bit b) ∧
  ((3 ≤ length state)%nat → ∃ b, call trivium_feedback h l = Ok b ∧ is_bit b) ∧
  (∃ b, call majority_function h l = Ok b ∧ is_bit b) ∧
  (∃ b, call even_parity h l = Ok b ∧ is_bit b).
Proof.
  intros Hl. repeat split.
  - intros Hn. destruct state as [|x0 [|x1 [|x2 [|x3 [|x4 rest]]]]]; simpl in Hn; try lia.
    rewrite (grain_feedback_value h l _ _ _ _ _ _ Hl).
    eexists. split; [reflexivity|apply is_bit_mod2].
  - intros Hn. by apply (trivium_feedback_bit h l state).
  - rewrite (majority_function_sum_run h l state Hl).
    eexists. split; [reflexivity|]. unfold is_bit. case_decide; auto.
  - rewrite (even_parity_run h l state Hl).
    eexists. split; [reflexivity|apply is_bit_mod2].
Qed.

Lemma bit_on_any_integers_witness :
  ∃ b, call even_parity {[ 0%nat := [-3; 7; 10] ]} 0%nat = Ok b ∧ is_bit b.
Proof.
  destruct (bit_on_any_integers {[ 0%nat := [-3; 7; 10] ]} 0%nat [-3; 7; 10])
    as (_ & _ & _ & H); [reflexivity|exact H].
Defined.

(** *** The all-zero state *)

Lemma xor_all_zeros xs : Forall (λ x, x = 0) xs → xor_all xs = 0.
Proof. induction 1 as [|x xs -> _ IH]; [done|]. simpl. by rewrite IH. Qed.

(** X7. Every function of the [functions] dictionary returns 0 on the
    all-zero state of a length that meets its requirement: under each of
    them the all-zero state feeds back a zero. *)
Theorem functions_zero_on_zero_state name f (h : store) (l : ref) (n : nat) :
  functions !! name = Some f → h !! l = Some (replicate n 0) →
  length_precondition name (Z.of_nat n) →
  call f h l = Ok 0.
Proof.
  intros Hf Hl Hpre. apply functions_entries in Hf.
  assert (bits (replicate n 0)) as Hb by (apply Forall_replicate; by left).
  destruct Hf as [[-> ->]|[[-> ->]|[[-> ->]|[[-> ->]|[[-> ->]|[[-> ->]|[-> ->]]]]]]];
    unfold length_precondition in Hpre; repeat case_decide; try done.
  - destruct n as [|[|[|[|[|n]]]]]; try lia.
    by rewrite (grain_feedback_value h l _ _ _ _ _ _ Hl).
  - destruct n as [|[|[|n]]]; try lia.
    by rewrite (trivium_feedback_value h l _ _ _ _ Hl).
  - destruct n as [|[|[|n]]]; try lia.
    by rewrite (alternating_step_generator_value h l _ _ _ _ Hl).
  - rewrite (majority_function_run h l _ Hl Hb), ones_replicate_0, length_replicate.
    rewrite decide_False; [done|].
    pose proof (Z.div_pos (Z.of_nat n) 2 ltac:(lia) ltac:(lia)). lia.
  - rewrite (threshold_with_feedback_run h l _ Hl Hb).
    + rewrite ones_replicate_0, length_replicate.
      destruct (Z.of_nat n) as [|p|p] eqn:E; try lia. reflexivity.
    + destruct n; [simpl in Hpre; lia|discriminate].
  - rewrite (even_parity_run h l _ Hl), (sum_bits _ Hb), ones_replicate_0.
    reflexivity.
  - destruct Hpre as [ts Hts].
    destruct (galois_lfsr_run h l (replicate n 0) ts Hl) as (xs & Hxs & ->).
    { by rewrite length_replicate. }
    f_equal. apply xor_all_zeros.
    clear -Hxs. induction Hxs as [|t x ts xs Htx _ IH]; constructor; [|done].
    by apply lookup_replicate in Htx as [-> _].
Qed.

Lemma functions_zero_on_zero_state_witness :
  call grain_feedback {[ 0%nat := replicate 6 0 ]} 0%nat = Ok 0.
Proof.
  apply (functions_zero_on_zero_state "Grain Stream Cipher" grain_feedback _ _ 6).
  - reflexivity.
  - apply lookup_singleton_eq.
  - unfold length_precondition. rewrite decide_True by done. lia.
Defined.

(** *** The tap table and the linear functions *)

(** X8. The tap table of [galois_lfsr] is well formed: every entry belongs
    to a supported length, taps position 0 first, lists its positions in
    strictly increasing order, and stays below its register length. *)
Theorem taps_well_formed (n : Z) (ts : list nat) :
  taps !! n = Some ts →
  supported n ∧
  (∃ ts', ts = 0%nat :: ts') ∧
  StronglySorted lt ts ∧
  Forall (λ t, Z.of_nat t < n) ts.
Proof.
  intros Hn. apply elem_of_list_to_map_2 in Hn.
  repeat (apply elem_of_cons in Hn as [Hn|Hn];
          [injection Hn as -> ->;
           split; [unfold supported; lia|];
           split; [by eexists|];
           split; repeat first [lia | constructor]|]).
  by apply elem_of_nil in Hn.
Qed.

Lemma taps_well_formed_witness :
  StronglySorted lt [0; 1; 3; 12]%nat.
Proof.
  destruct (taps_well_formed 16 [0; 1; 3; 12]%nat) as (_ & _ & H & _);
    [by vm_compute|exact H].
Defined.

Lemma tapped_agree (a b : list Z) (ts : list nat) xs ys :
  Forall (λ t, a !! t = b !! t) ts →
  Forall2 (λ t x, a !! t = Some x) ts xs →
  Forall2 (λ t x, b !! t = Some x) ts ys →
  xs = ys.
Proof.
  intros Hagree Hxs. revert ys.
  induction Hxs as [|t x ts xs Hx _ IH]; intros ys Hys.
  - by apply Forall2_nil_inv_l in Hys.
  - apply Forall2_cons_inv_l in Hys as (y & ys' & Hy & Hys' & ->).
    apply Forall_cons in Hagree as [Ht Hagree].
    f_equal; [congruence|by apply IH].
Qed.

Lemma tapped_zip_with (a b : list Z) (ts : list nat) xa xb xc :
  Forall2 (λ t x, a !! t = Some x) ts xa →
  Forall2 (λ t x, b !! t = Some x) ts xb →
  Forall2 (λ t x, zip_with Z.lxor a b !! t = Some x) ts xc →
  xor_all xc = Z.lxor (xor_all xa) (xor_all xb).
Proof.
  intros Ha. revert xb xc.
  induction Ha as [|t x ts xa Hx _ IH]; intros xb xc Hb Hc.
  - apply Forall2_nil_inv_l in Hb as ->. by apply Forall2_nil_inv_l in Hc as ->.
  - apply Forall2_cons_inv_l in Hb as (y & xb' & Hy & Hb & ->).
    apply Forall2_cons_inv_l in Hc as (z & xc' & Hz & Hc & ->).
    apply lookup_zip_with_Some in Hz as (x' & y' & -> & Hx' & Hy').
    assert (x' = x) as -> by congruence. assert (y' = y) as -> by congruence.
    cbn [xor_all foldr]. fold (xor_all xa) (xor_all xb') (xor_all xc').
    rewrite (IH xb' xc' Hb Hc), !Z.lxor_assoc. f_equal.
    rewrite <- !Z.lxor_assoc. f_equal. apply Z.lxor_comm.
Qed.

(** X9. [galois_lfsr] is linear: on two lists of integers of the same
    supported length, the feedback of their item-wise XOR is the XOR of
    their feedbacks. *)
Theorem galois_lfsr_linear (ha hb hc : store) (la lb lc : ref) (a b : list Z) :
  ha !! la = Some a → hb !! lb = Some b →
  hc !! lc = Some (zip_with Z.lxor a b) →
  length a = length b → supported (Z.of_nat (length a)) →
  ∃ ra rb, call galois_lfsr ha la = Ok ra ∧ call galois_lfsr hb lb = Ok rb ∧
           call galois_lfsr hc lc = Ok (Z.lxor ra rb).
Proof.
  intros Ha Hb Hc Hlen Hsup. apply taps_supported in Hsup as [ts Hts].
  destruct (galois_lfsr_run ha la a ts Ha Hts) as (xa & Hxa & ->).
  destruct (galois_lfsr_run hb lb b ts Hb) as (xb & Hxb & ->).
  { by rewrite <- Hlen. }
  destruct (galois_lfsr_run hc lc _ ts Hc) as (xc & Hxc & ->).
  { rewrite length_zip_with, <- Hlen, Nat.min_id. exact Hts. }
  exists (xor_all xa), (xor_all xb). split; [done|]. split; [done|].
  f_equal. by apply (tapped_zip_with a b ts).
Qed.

Lemma galois_lfsr_linear_witness :
  ∃ ra rb, call galois_lfsr {[ 0%nat := [1; 0; 1] ]} 0%nat = Ok ra ∧
           call galois_lfsr {[ 0%nat := [1; 1; 0] ]} 0%nat = Ok rb ∧
           call galois_lfsr {[ 0%nat := [0; 1; 1] ]} 0%nat = Ok (Z.lxor ra rb).
Proof.
  apply (galois_lfsr_linear _ _ _ _ _ _ [1; 0; 1] [1; 1; 0]);
    try apply lookup_singleton_eq; [reflexivity|].
  unfold supported. simpl. lia.
Defined.

(** X10. [galois_lfsr] reads the tapped positions only: on two lists of
    integers of the same supported length that agree at the tap positions
    of that length it returns the same value. *)
Theorem galois_lfsr_tapped_only (ha hb : store) (la lb : ref) (a b : list Z)
    (ts : list nat) :
  ha !! la = Some a → hb !! lb = Some b → length a = length b →
  taps !! Z.of_nat (length a) = Some ts →
  (∀ t, t ∈ ts → a !! t = b !! t) →
  call galois_lfsr ha la = call galois_lfsr hb lb.
Proof.
  intros Ha Hb Hlen Hts Hagree.
  destruct (galois_lfsr_run ha la a ts Ha Hts) as (xa & Hxa & ->).
  destruct (galois_lfsr_run hb lb b ts Hb) as (xb & Hxb & ->).
  { by rewrite <- Hlen. }
  do 2 f_equal. apply (tapped_agree a b ts); [|done..].
  by apply Forall_forall.
Qed.

Lemma galois_lfsr_tapped_only_witness :
  call galois_lfsr {[ 0%nat := [1; 0; 1; 1; 0] ]} 0%nat
  = call galois_lfsr {[ 0%nat := [1; 1; 1; 0; 1] ]} 0%nat.
Proof.
  apply (galois_lfsr_tapped_only _ _ _ _ [1; 0; 1; 1; 0] [1; 1; 1; 0; 1] [0; 2]%nat);
    try apply lookup_singleton_eq; try reflexivity.
  intros t Ht. apply elem_of_cons in Ht as [->|Ht]; [reflexivity|].
  apply elem_of_cons in Ht as [->|Ht]; [reflexivity|].
  by apply elem_of_nil in Ht.
Defined.

(** *** Complementing one bit *)

Lemma taps_first (n : Z) (ts : list nat) :
  taps !! n = Some ts → ∃ ts', ts = 0%nat :: ts' ∧ Forall (λ t, 0 < t)%nat ts'.
Proof.
  intros Hn. apply elem_of_list_to_map_2 in Hn.
  repeat (apply elem_of_cons in Hn as [Hn|Hn];
          [injection Hn as -> ->; eexists; split; [reflexivity|];
           repeat (constructor; [lia|]); constructor|]).
  by apply elem_of_nil in Hn.
Qed.

Lemma is_bit_complement b : is_bit b → is_bit (1 - b).
Proof. intros [-> | ->]; [by right|by left]. Qed.

Lemma lxor_complement x y :
  is_bit x → is_bit y → Z.lxor (1 - x) y = 1 - Z.lxor x y.
Proof. by intros [-> | ->] [-> | ->]. Qed.

Lemma mod2_complement s x :
  is_bit x → (s - x + (1 - x)) `mod` 2 = 1 - s `mod` 2.
Proof.
  intros Hx.
  pose proof (Z.div_mod s 2 ltac:(lia)).
  pose proof (Z.mod_pos_bound s 2 ltac:(lia)).
  pose proof (Z.div_mod (s - x + (1 - x)) 2 ltac:(lia)).
  pose proof (Z.mod_pos_bound (s - x + (1 - x)) 2 ltac:(lia)).
  destruct Hx as [-> | ->]; lia.
Qed.

Lemma foldl_add_app xs ys :
  foldl Z.add 0 (xs ++ ys) = foldl Z.add 0 xs + foldl Z.add 0 ys.
Proof. by rewrite foldl_app, foldl_add_shift. Qed.

Lemma foldl_add_insert (state : list Z) (i : nat) x y :
  state !! i = Some x →
  foldl Z.add 0 (<[i := y]> state) = foldl Z.add 0 state - x + y.
Proof.
  intros Hi. rewrite insert_take_drop by (by eapply lookup_lt_Some).
  rewrite <- (take_drop_middle state i x Hi) at 3.
  rewrite !foldl_add_app, !foldl_add_cons. lia.
Qed.

(** X11. [even_parity] is sensitive to every bit: complementing any one bit
    of a state of bits complements the result. *)
Theorem even_parity_sensitive (h h' : store) (l l' : ref) (state : list Z)
    (i : nat) (x : Z) :
  h !! l = Some state → bits state → state !! i = Some x →
  h' !! l' = Some (<[i := 1 - x]> state) →
  ∃ r, call even_parity h l = Ok r ∧ call even_parity h' l' = Ok (1 - r).
Proof.
  intros Hl Hb Hi Hl'.
  rewrite (even_parity_run h l state Hl), (even_parity_run h' l' _ Hl').
  eexists. split; [reflexivity|]. f_equal.
  rewrite (foldl_add_insert state i x (1 - x) Hi).
  apply mod2_complement. exact (bits_lookup _ _ _ Hb Hi).
Qed.

Lemma even_parity_sensitive_witness :
  ∃ r, call even_parity {[ 0%nat := [1; 0; 1] ]} 0%nat = Ok r ∧
       call even_parity {[ 0%nat := [1; 1; 1] ]} 0%nat = Ok (1 - r).
Proof.
  apply (even_parity_sensitive _ _ _ _ [1; 0; 1] 1%nat 0);
    try apply lookup_singleton_eq; [solve_bits|reflexivity].
Defined.

(** X12. [grain_feedback], [trivium_feedback], [even_parity] and
    [galois_lfsr] are nonsingular: on a state of bits of a length that meets
    the function's requirement, complementing the bit at index 0 complements
    the feedback. *)
Theorem first_bit_complements_feedback name f (h h' : store) (l l' : ref)
    (x0 : Z) (rest : list Z) :
  functions !! name = Some f →
  name ∈ ["Grain Stream Cipher"; "Trivium Stream Cipher"; "Even Parity";
          "Galois LFSR"]%string →
  h !! l = Some (x0 :: rest) → h' !! l' = Some ((1 - x0) :: rest) →
  bits (x0 :: rest) →
  length_precondition name (Z.of_nat (length (x0 :: rest))) →
  ∃ r, call f h l = Ok r ∧ call f h' l' = Ok (1 - r).
Proof.
  intros Hf Hname Hl Hl' Hb Hpre. apply functions_entries in Hf.
  destruct Hf as [[-> ->]|[[-> ->]|[[-> ->]|[[-> ->]|[[-> ->]|[[-> ->]|[-> ->]]]]]]];
    unfold length_precondition in Hpre; repeat case_decide; try done;
    try (repeat (apply elem_of_cons in Hname as [Hname|Hname]; [discriminate|]);
         by apply elem_of_nil in Hname).
  - destruct rest as [|x1 [|x2 [|x3 [|x4 rest]]]]; simpl in Hpre; try lia.
    rewrite (grain_feedback_value h l _ _ _ _ _ _ Hl),
      (grain_feedback_value h' l' _ _ _ _ _ _ Hl').
    eexists. split; [reflexivity|]. f_equal.
    apply Forall_cons in Hb as [Hx0 Hb]. apply Forall_cons in Hb as [Hx1 Hb].
    apply Forall_cons in Hb as [Hx2 Hb]. apply Forall_cons in Hb as [Hx3 Hb].
    apply Forall_cons in Hb as [Hx4 _].
    by destruct Hx0 as [-> | ->], Hx1 as [-> | ->], Hx2 as [-> | ->],
      Hx3 as [-> | ->], Hx4 as [-> | ->].
  - destruct rest as [|x1 [|x2 rest]]; simpl in Hpre; try lia.
    rewrite (trivium_feedback_value h l _ _ _ _ Hl),
      (trivium_feedback_value h' l' _ _ _ _ Hl').
    eexists. split; [reflexivity|]. f_equal.
    apply Forall_cons in Hb as [Hx0 Hb]. apply Forall_cons in Hb as [Hx1 Hb].
    apply Forall_cons in Hb as [Hx2 _].
    by destruct Hx0 as [-> | ->], Hx1 as [-> | ->], Hx2 as [-> | ->].
  - rewrite (even_parity_run h l _ Hl), (even_parity_run h' l' _ Hl').
    eexists. split; [reflexivity|]. f_equal. rewrite !foldl_add_cons.
    replace (1 - x0 + foldl Z.add 0 rest)
      with (x0 + foldl Z.add 0 rest - x0 + (1 - x0)) by lia.
    apply mod2_complement. by apply Forall_cons in Hb as [? _].
  - destruct Hpre as [ts Hts].
    destruct (taps_first _ _ Hts) as (ts' & -> & Hpos).
    destruct (galois_lfsr_run h l _ _ Hl Hts) as (xs & Hxs & ->).
    destruct (galois_lfsr_run h' l' _ (0%nat :: ts') Hl') as (xs' & Hxs' & ->);
      [done|].
    apply Forall2_cons_inv_l in Hxs as (y & ys & Hy & Hys & ->).
    apply Forall2_cons_inv_l in Hxs' as (y' & ys' & Hy' & Hys' & ->).
    cbn in Hy, Hy'. injection Hy as <-. injection Hy' as <-.
    assert (ys = ys') as <-.
    { apply (tapped_agree (x0 :: rest) ((1 - x0) :: rest) ts'); [|done..].
      eapply Forall_impl; [exact Hpos|]. intros [|t] Ht; [lia|done]. }
    eexists. split; [reflexivity|]. f_equal. cbn [xor_all foldr].
    apply lxor_complement.
    + by apply Forall_cons in Hb as [? _].
    + apply is_bit_xor_all. by apply (tapped_bits (x0 :: rest) ts').
Qed.

Lemma first_bit_complements_feedback_witness :
  ∃ r, call grain_feedback {[ 0%nat := [0; 1; 1; 0; 1] ]} 0%nat = Ok r ∧
       call grain_feedback {[ 0%nat := [1; 1; 1; 0; 1] ]} 0%nat = Ok (1 - r).
Proof.
  apply (first_bit_complements_feedback "Grain Stream Cipher" grain_feedback
           _ _ _ _ 0 [1; 1; 0; 1]).
  - reflexivity.
  - by left.
  - apply lookup_singleton_eq.
  - apply lookup_singleton_eq.
  - solve_bits.
  - unfold length_precondition. rewrite decide_True by done. simpl. lia.
Defined.

(** *** Linearity of even_parity *)

Lemma odd_lxor x y : Z.odd (Z.lxor x y) = xorb (Z.odd x) (Z.odd y).
Proof. rewrite <- !Z.bit0_odd. apply Z.lxor_spec. Qed.

Lemma odd_sum_zip_with (a b : list Z) :
  length a = length b →
  Z.odd (foldl Z.add 0 (zip_with Z.lxor a b))
  = xorb (Z.odd (foldl Z.add 0 a)) (Z.odd (foldl Z.add 0 b)).
Proof.
  revert b. induction a as [|x a IH]; intros [|y b] Hlen; try done.
  cbn [zip_with]. rewrite !foldl_add_cons, !Z.odd_add, odd_lxor, IH.
  - by destruct (Z.odd x), (Z.odd y), (Z.odd (foldl Z.add 0 a)),
      (Z.odd (foldl Z.add 0 b)).
  - by injection Hlen.
Qed.

(** X13. [even_parity] is linear: on two lists of integers of the same
    length, the parity of their item-wise XOR is the XOR of their
    parities. *)
Theorem even_parity_linear (ha hb hc : store) (la lb lc : ref) (a b : list Z) :
  ha !! la = Some a → hb !! lb = Some b →
  hc !! lc = Some (zip_with Z.lxor a b) → length a = length b →
  ∃ ra rb, call even_parity ha la = Ok ra ∧ call even_parity hb lb = Ok rb ∧
           call even_parity hc lc = Ok (Z.lxor ra rb).
Proof.
  intros Ha Hb Hc Hlen.
  rewrite (even_parity_run ha la a Ha), (even_parity_run hb lb b Hb),
    (even_parity_run hc lc _ Hc).
  eexists _, _. split; [reflexivity|]. split; [reflexivity|]. f_equal.
  rewrite !Zmod_odd, (odd_sum_zip_with a b Hlen).
  by destruct (Z.odd (foldl Z.add 0 a)), (Z.odd (foldl Z.add 0 b)).
Qed.

Lemma even_parity_linear_witness :
  ∃ ra rb, call even_parity {[ 0%nat := [1; 0; 1] ]} 0%nat = Ok ra ∧
           call even_parity {[ 0%nat := [1; 1; 0] ]} 0%nat = Ok rb ∧
           call even_parity {[ 0%nat := [0; 1; 1] ]} 0%nat = Ok (Z.lxor ra rb).
Proof.
  apply (even_parity_linear _ _ _ _ _ _ [1; 0; 1] [1; 1; 0]);
    try apply lookup_singleton_eq. reflexivity.
Defined.

(** *** majority_function: duality, monotonicity, and the threshold *)

Lemma bits_complement state : bits state → bits ((λ b, 1 - b) <$> state).
Proof. intros Hb. apply Forall_fmap. eapply Forall_impl; [exact Hb|]. apply is_bit_complement. Qed.

Lemma ones_complement state :
  bits state →
  ones ((λ b, 1 - b) <$> state) = Z.of_nat (length state) - ones state.
Proof.
  induction 1 as [|b state Hb _ IH]; [done|].
  cbn [fmap list_fmap length]. rewrite !ones_cons.
  change (list_fmap Z Z (λ b, 1 - b) state) with ((λ b, 1 - b) <$> state).
  rewrite IH. destruct Hb as [-> | ->]; repeat case_decide; lia.
Qed.

(** X14. [majority_function] is self-dual on odd lengths: complementing
    every bit of a state of bits of odd length complements the result. *)
Theorem majority_function_self_dual (h h' : store) (l l' : ref) (state : list Z) :
  h !! l = Some state → bits state → Z.odd (Z.of_nat (length state)) = true →
  h' !! l' = Some ((λ b, 1 - b) <$> state) →
  ∃ r, call majority_function h l = Ok r ∧
       call majority_function h' l' = Ok (1 - r).
Proof.
  intros Hl Hb Hodd Hl'.
  rewrite (majority_function_run h l state Hl Hb),
    (majority_function_run h' l' _ Hl' (bits_complement state Hb)).
  rewrite ones_complement, length_fmap by done.
  eexists. split; [reflexivity|]. f_equal.
  pose proof (ones_bounds state).
  pose proof (Z.div_mod (Z.of_nat (length state)) 2 ltac:(lia)) as Hdiv.
  rewrite Zmod_odd, Hodd in Hdiv.
  repeat case_decide; lia.
Qed.

Lemma majority_function_self_dual_witness :
  ∃ r, call majority_function {[ 0%nat := [1; 0; 1] ]} 0%nat = Ok r ∧
       call majority_function {[ 0%nat := [0; 1; 0] ]} 0%nat = Ok (1 - r).
Proof.
  apply (majority_function_self_dual _ _ _ _ [1; 0; 1]);
    try apply lookup_singleton_eq; [solve_bits|reflexivity].
Defined.

Lemma ones_monotone state1 state2 :
  bits state1 → bits state2 → Forall2 Z.le state1 state2 →
  ones state1 ≤ ones state2.
Proof.
  intros Hb1 Hb2 Hle. induction Hle as [|x y xs ys Hxy _ IH]; [done|].
  apply Forall_cons in Hb1 as [Hx Hb1]. apply Forall_cons in Hb2 as [Hy Hb2].
  rewrite !ones_cons. specialize (IH Hb1 Hb2).
  destruct Hx as [-> | ->], Hy as [-> | ->]; repeat case_decide; lia.
Qed.

(** X15. [majority_function] is monotone: raising bits of a state of bits
    from 0 to 1 never lowers the result. *)
Theorem majority_function_monotone (h1 h2 : store) (l1 l2 : ref)
    (state1 state2 : list Z) :
  h1 !! l1 = Some state1 → h2 !! l2 = Some state2 →
  bits state1 → bits state2 → Forall2 Z.le state1 state2 →
  ∃ r1 r2, call majority_function h1 l1 = Ok r1 ∧
           call majority_function h2 l2 = Ok r2 ∧ r1 ≤ r2.
Proof.
  intros H1 H2 Hb1 Hb2 Hle.
  rewrite (majority_function_run h1 l1 state1 H1 Hb1),
    (majority_function_run h2 l2 state2 H2 Hb2).
  eexists _, _. split; [reflexivity|]. split; [reflexivity|].
  pose proof (ones_monotone state1 state2 Hb1 Hb2 Hle).
  rewrite (Forall2_length _ _ _ Hle). repeat case_decide; lia.
Qed.

Lemma majority_function_monotone_witness :
  ∃ r1 r2, call majority_function {[ 0%nat := [1; 0; 0] ]} 0%nat = Ok r1 ∧
           call majority_function {[ 0%nat := [1; 0; 1] ]} 0%nat = Ok r2 ∧
           r1 ≤ r2.
Proof.
  apply (majority_function_monotone _ _ _ _ [1; 0; 0] [1; 0; 1]);
    try apply lookup_singleton_eq; solve_bits.
Defined.

(** X16. [threshold_with_feedback] is at least as strict as
    [majority_function]: on a non-empty state of at most 10^15 bits on which
    the threshold function returns 1, the majority function returns 1. *)
Theorem threshold_implies_majority (h : store) (l : ref) (state : list Z) :
  h !! l = Some state → bits state → state ≠ [] →
  Z.of_nat (length state) ≤ 1000000000000000 →
  call threshold_with_feedback h l = Ok 1 →
  call majority_function h l = Ok 1.
Proof.
  intros Hl Hb Hne Hlen.
  rewrite (threshold_with_feedback_run h l state Hl Hb Hne),
    (majority_function_run h l state Hl Hb).
  pose proof (ones_bounds state) as Hones.
  assert (0 < Z.of_nat (length state)) as Hpos.
  { destruct state; [done|]. simpl length. lia. }
  destruct (Z.of_nat (length state)) as [|n|n] eqn:En; try lia.
  destruct (ones state) as [|k|k] eqn:Ek; try lia; [by cbn|].
  cbn [int_operand]. destruct (float_ge _ _) eqn:Hge; [|done]. intros _.
  apply (SFdiv_ge_0_7 k n ltac:(lia) ltac:(lia)) in Hge.
  rewrite decide_True; [done|].
  pose proof (Z.div_mod (Z.pos n) 2 ltac:(lia)).
  pose proof (Z.mod_pos_bound (Z.pos n) 2 ltac:(lia)). lia.
Qed.

Lemma threshold_implies_majority_witness :
  call majority_function {[ 0%nat := [1; 1; 1; 0] ]} 0%nat = Ok 1.
Proof.
  apply (threshold_implies_majority _ _ [1; 1; 1; 0]).
  - apply lookup_singleton_eq.
  - solve_bits.
  - discriminate.
  - simpl. lia.
  - vm_compute. reflexivity.
Defined.

(** ** The cycle decomposition engine *)

Import Engine.






Section EngineCorrect.
Context (size : nat) (next : nat → attempt nat).
Hypothesis next_total :
  ∀ s, (s < size)%nat → ∃ s', next s = Success s' ∧ (s' < size)%nat.









End EngineCorrect.

(** *** The register: states as integers *)








